(** * composable-agents: the ReAct response parser, the Retry wrapper and
    the Registrar, embedded from the Python sources

    - [agents/backends/react.py]     : [ReActBackend.__parse],
      [parse_for_result], [parse_for_tool_calls], [tool_results_to_prompts]
    - [agents/flow/retry.py]         : [Retry.__init__], [Retry.retry_invoke]
    - [agents/registrar/registrar.py]: [Registrar.register], [get_tools],
      [_on_tool_call]

    Python values are modelled as follows.  A [str] is the list of its
    Unicode code points ([pystr]); an exception raised by a function is the
    [Raise] branch of [result]; a [dict] is an association list kept in
    insertion order with unique keys. *)

From Stdlib Require Import ZArith NArith Ascii String List Bool Lia DecimalString.
From stdpp Require Import base option list gmap strings.

Local Open Scope N_scope.

(** ** Python strings *)

Module PyStr.

(** A [str] is a sequence of code points. *)
Definition pystr : Type := list N.

(** [lit "abc"] is the Python literal ["abc"] (ASCII literals only). *)
Definition lit (s : string) : pystr :=
  map N_of_ascii (list_ascii_of_string s).

Definition nl : N := 10.
Definition dquote : N := 34.

(** [str.isspace] on one character: the code points whose bidirectional
    class is WS, B or S, or whose category is Zs. *)
Definition isspace (c : N) : bool :=
  ((9 <=? c) && (c <=? 13)) || ((28 <=? c) && (c <=? 32))
  || (c =? 133) || (c =? 160) || (c =? 5760)
  || ((8192 <=? c) && (c <=? 8202))
  || (c =? 8232) || (c =? 8233) || (c =? 8239) || (c =? 8287)
  || (c =? 12288).

Fixpoint lstrip (s : pystr) : pystr :=
  match s with
  | [] => []
  | c :: s' => if isspace c then lstrip s' else s
  end.

Fixpoint rstrip (s : pystr) : pystr :=
  match s with
  | [] => []
  | c :: s' =>
      match rstrip s' with
      | [] => if isspace c then [] else [c]
      | r => c :: r
      end
  end.

(** [s.strip()] *)
Definition strip (s : pystr) : pystr := rstrip (lstrip s).

(** [s.startswith(p)] *)
Fixpoint startswith (s p : pystr) {struct p} : bool :=
  match p, s with
  | [], _ => true
  | _ :: _, [] => false
  | a :: p', b :: s' => (a =? b) && startswith s' p'
  end.

(** [s.split("\n")] *)
Fixpoint split_lines (s : pystr) : list pystr :=
  match s with
  | [] => [[]]
  | c :: s' =>
      if c =? nl then [] :: split_lines s'
      else match split_lines s' with
           | h :: t => (c :: h) :: t
           | [] => [[c]]
           end
  end.

(** [s.split(sep, 1)] for a non-empty [sep]: cut at the first occurrence. *)
Fixpoint split_once (sep s : pystr) : list pystr :=
  if startswith s sep then [[]; drop (length sep) s]
  else match s with
       | [] => [[]]
       | c :: s' =>
           match split_once sep s' with
           | h :: t => (c :: h) :: t
           | [] => [[c]]
           end
       end.

(** [sep.join(l)] *)
Fixpoint join (sep : pystr) (l : list pystr) : pystr :=
  match l with
  | [] => []
  | [x] => x
  | x :: xs => x ++ sep ++ join sep xs
  end.

(** The text whose lines are the given literals. *)
Definition unlines (l : list string) : pystr := join [nl] (map lit l).

(** [str(n)] for an [int]. *)
Definition str_of_int (z : Z) : pystr :=
  lit (NilZero.string_of_int (Z.to_int z)).

End PyStr.
Import PyStr.

(** ** Python values and exceptions *)

(** The values [json.loads] can return.  A [float] is kept as the literal
    that denotes it. *)
#[warnings="-register-all"]
Inductive pyval : Type :=
| PyNone
| PyBool (b : bool)
| PyInt (z : Z)
| PyFloat (literal : pystr)
| PyStr (s : pystr)
| PyList (l : list pyval)
| PyDict (d : list (pystr * pyval)).

(** The exceptions the modelled code raises.  [ValidationError] is
    pydantic's, raised by a model constructor on a field of the wrong type;
    [IndexError] is a subscript out of range; [RecursionError] is the
    interpreter's, raised when calls are nested deeper than it allows. *)
Inductive PyError : Type :=
| FormatException
| ValueError (msg : pystr)
| ValidationError (field : pystr)
| IndexError
| RecursionError.

Inductive result (A : Type) : Type :=
| Ok (a : A)
| Raise (e : PyError).
Arguments Ok {A} a.
Arguments Raise {A} e.

#[global] Instance result_bind : MBind result :=
  fun A B (f : A -> result B) (m : result A) =>
    match m with
    | Ok a => f a
    | Raise e => Raise e
    end.

(** [l[i]] on a list: [IndexError] when out of range. *)
Definition subscript {A : Type} (l : list A) (i : nat) : result A :=
  match l !! i with
  | Some a => Ok a
  | None => Raise IndexError
  end.

(** ** Dictionaries *)

Module PyDictOps.

Definition pystr_eqb (a b : pystr) : bool := bool_decide (a = b).

(** [d[k] = v]: replaces the value in place when the key exists, else
    appends the pair. *)
Fixpoint dict_set {V : Type} (k : pystr) (v : V) (d : list (pystr * V))
  : list (pystr * V) :=
  match d with
  | [] => [(k, v)]
  | (k', v') :: d' =>
      if pystr_eqb k k' then (k, v) :: d' else (k', v') :: dict_set k v d'
  end.

(** [dict(pairs)] *)
Definition dict_of_pairs {V : Type} (pairs : list (pystr * V))
  : list (pystr * V) :=
  fold_left (fun d kv => dict_set (fst kv) (snd kv) d) pairs [].

End PyDictOps.
Import PyDictOps.

(** ** [json.loads]

    The standard library's decoder, as far as the parser depends on it.
    JSON text is decoded to a [pyval]; the decoder fails with
    [json.JSONDecodeError] on text that is not JSON, and it raises two
    other exceptions on text that is: [RecursionError], when arrays and
    objects are nested deeper than the interpreter allows at the time of
    the call, and [ValueError], when an integer has more digits than
    [sys.get_int_max_str_digits()]. *)

Module Json.

Definition is_ws (c : N) : bool :=
  (c =? 32) || (c =? 9) || (c =? 10) || (c =? 13).

Fixpoint skip_ws (s : pystr) : pystr :=
  match s with
  | [] => []
  | c :: s' => if is_ws c then skip_ws s' else s
  end.

Definition is_digit (c : N) : bool := (48 <=? c) && (c <=? 57).

Definition hex_digit (c : N) : option N :=
  if (48 <=? c) && (c <=? 57) then Some (c - 48)
  else if (97 <=? c) && (c <=? 102) then Some (c - 87)
  else if (65 <=? c) && (c <=? 70) then Some (c - 55)
  else None.

Definition hex4 (a b c d : N) : option N :=
  x ← hex_digit a; y ← hex_digit b; z ← hex_digit c; w ← hex_digit d;
  Some (((x * 16 + y) * 16 + z) * 16 + w).

(** The one-character escapes after a backslash. *)
Definition backslash (c : N) : option N :=
  if c =? 34 then Some 34
  else if c =? 92 then Some 92
  else if c =? 47 then Some 47
  else if c =? 98 then Some 8
  else if c =? 102 then Some 12
  else if c =? 110 then Some 10
  else if c =? 114 then Some 13
  else if c =? 116 then Some 9
  else None.

Definition is_high_surrogate (u : N) : bool := (55296 <=? u) && (u <=? 56319).
Definition is_low_surrogate (u : N) : bool := (56320 <=? u) && (u <=? 57343).

(** [scanstring]: the characters after an opening quote, up to the closing
    quote; the decoded string and the text after the closing quote. *)
Fixpoint scanstring (s : pystr) : option (pystr * pystr) :=
  match s with
  | [] => None
  | c :: s1 =>
      if c =? 34 then Some ([], s1)
      else if c =? 92 then
        match s1 with
        | [] => None
        | e :: s2 =>
            if e =? 117 then
              match s2 with
              | h1 :: h2 :: h3 :: h4 :: s3 =>
                  uni ← hex4 h1 h2 h3 h4;
                  match s3 with
                  | b :: u :: g1 :: g2 :: g3 :: g4 :: s4 =>
                      if is_high_surrogate uni && (b =? 92) && (u =? 117)
                      then
                        uni2 ← hex4 g1 g2 g3 g4;
                        if is_low_surrogate uni2
                        then
                          '(str, rest) ← scanstring s4;
                          Some ((65536 + ((uni - 55296) * 1024
                                          + (uni2 - 56320))) :: str, rest)
                        else
                          '(str, rest) ← scanstring s3;
                          Some (uni :: str, rest)
                      else
                        '(str, rest) ← scanstring s3;
                        Some (uni :: str, rest)
                  | _ =>
                      '(str, rest) ← scanstring s3;
                      Some (uni :: str, rest)
                  end
              | _ => None
              end
            else
              ch ← backslash e;
              '(str, rest) ← scanstring s2;
              Some (ch :: str, rest)
        end
      else if c <? 32 then None
      else
        '(str, rest) ← scanstring s1;
        Some (c :: str, rest)
  end.

(** The longest prefix of digits, and what follows it. *)
Fixpoint digits (s : pystr) : pystr * pystr :=
  match s with
  | c :: s' =>
      if is_digit c then let '(d, r) := digits s' in (c :: d, r)
      else ([], s)
  | [] => ([], [])
  end.

Definition int_of_digits (d : pystr) : Z :=
  fold_left (fun acc c => (acc * 10 + Z.of_N (c - 48))%Z) d 0%Z.

(** [NUMBER_RE]: an optional minus sign and either 0 or a non-zero digit
    followed by digits; then, optionally, a dot and one or more digits;
    then, optionally, e or E, an optional sign and one or more digits.
    Each part gives what it matched and the text after it. *)
Definition sign_part (s : pystr) : pystr * pystr :=
  match s with
  | c :: s' => if c =? 45 then ([c], s') else ([], s)
  | [] => ([], s)
  end.

Definition int_part (s : pystr) : option (pystr * pystr) :=
  match s with
  | c :: s' =>
      if c =? 48 then Some ([c], s')
      else if is_digit c then
        let '(d, r) := digits s' in Some (c :: d, r)
      else None
  | [] => None
  end.

Definition frac_part (s : pystr) : pystr * pystr :=
  match s with
  | c :: s' =>
      if c =? 46 then
        match digits s' with
        | ([], _) => ([], s)
        | (d, r) => (c :: d, r)
        end
      else ([], s)
  | [] => ([], s)
  end.

Definition exp_part (s : pystr) : pystr * pystr :=
  match s with
  | c :: s' =>
      if (c =? 101) || (c =? 69) then
        let '(sg, s'') :=
          match s' with
          | p :: t => if (p =? 45) || (p =? 43) then ([p], t) else ([], s')
          | [] => ([], s')
          end in
        match digits s'' with
        | ([], _) => ([], s)
        | (d, r) => (c :: sg ++ d, r)
        end
      else ([], s)
  | [] => ([], s)
  end.

(** The three groups of the match and the text after it. *)
Definition match_number (s : pystr)
  : option (pystr * pystr * pystr * pystr) :=
  let '(sign, s1) := sign_part s in
  '(int, s2) ← int_part s1;
  let '(frac, s3) := frac_part s2 in
  let '(exp, s4) := exp_part s3 in
  Some (sign ++ int, frac, exp, s4).

Definition number_value (int frac exp : pystr) : pyval :=
  match frac, exp with
  | [], [] =>
      match int with
      | c :: d => if c =? 45 then PyInt (- int_of_digits d)
                  else PyInt (int_of_digits int)
      | [] => PyInt 0
      end
  | _, _ => PyFloat (int ++ frac ++ exp)
  end.

(** What [json.loads] depends on besides its argument: the number of
    nested arrays and objects the interpreter still lets the scanner enter
    when it is called, and the limit on the digits of an integer (4300
    unless configured; 0 stands for no limit, as in the interpreters that
    have none). *)
Record Env : Type := {
  recursion_remaining : nat;
  int_max_str_digits : nat
}.

(** An interpreter with its default settings, called from a shallow
    stack; for the examples. *)
Definition common_env : Env :=
  {| recursion_remaining := 900; int_max_str_digits := 4300 |}.

(** How a call of the decoder ends: with a value, with
    [json.JSONDecodeError], or with another exception. *)
Inductive outcome (A : Type) : Type :=
| Decoded (a : A)
| DecodeError
| Raised (e : PyError).
Arguments Decoded {A} a.
Arguments DecodeError {A}.
Arguments Raised {A} e.

#[global] Instance outcome_bind : MBind outcome :=
  fun A B (f : A -> outcome B) (m : outcome A) =>
    match m with
    | Decoded a => f a
    | DecodeError => DecodeError
    | Raised e => Raised e
    end.

Definition of_option {A : Type} (o : option A) : outcome A :=
  match o with
  | Some a => Decoded a
  | None => DecodeError
  end.

(** The number of digits of an integer literal, without its sign. *)
Definition int_digits (int : pystr) : nat :=
  match int with
  | c :: d => if c =? 45 then length d else length int
  | [] => O
  end.

(** The message of the [ValueError] of [int] on too many digits. *)
Definition digits_limit_message (limit digits : nat) : pystr :=
  lit "Exceeds the limit (" ++ str_of_int (Z.of_nat limit)
  ++ lit " digits) for integer string conversion: value has "
  ++ str_of_int (Z.of_nat digits)
  ++ lit " digits; use sys.set_int_max_str_digits() to increase the limit".

(** The exceptions the scanner raises, other than its own decoding
    error. *)
Definition scanner_exception (e : PyError) : Prop :=
  e = RecursionError \/
  exists limit digits, e = ValueError (digits_limit_message limit digits).

(** The value of a number that was matched; only the conversion of an
    integer is subject to the limit on digits. *)
Definition number_outcome (env : Env) (int frac exp : pystr)
  : outcome pyval :=
  match frac, exp with
  | [], [] =>
      if (0 <? int_max_str_digits env)%nat
         && (int_max_str_digits env <? int_digits int)%nat
      then Raised (ValueError (digits_limit_message
                                 (int_max_str_digits env) (int_digits int)))
      else Decoded (number_value int frac exp)
  | _, _ => Decoded (number_value int frac exp)
  end.

(** One step of [scan_once], over the scanners [members] and [elements]
    of the pairs of an object and the items of an array.  [depth] is the
    number of nested arrays and objects that may still be entered: the
    scanner asks for one more level on every opening brace or bracket,
    before it reads on. *)
Definition scan_once_body (env : Env) (depth : nat)
    (members : pystr -> outcome (list (pystr * pyval) * pystr))
    (elements : pystr -> outcome (list pyval * pystr))
    (s : pystr) : outcome (pyval * pystr) :=
  match s with
  | [] => DecodeError
  | c :: s' =>
      if c =? 34 then
        '(str, rest) ← of_option (scanstring s'); Decoded (PyStr str, rest)
      else if c =? 123 then
        match depth with
        | O => Raised RecursionError
        | S _ =>
            match skip_ws s' with
            | q :: s1 =>
                if q =? 125 then Decoded (PyDict [], s1)
                else if q =? 34 then
                  '(pairs, rest) ← members s1;
                  Decoded (PyDict (dict_of_pairs pairs), rest)
                else DecodeError
            | [] => DecodeError
            end
        end
      else if c =? 91 then
        match depth with
        | O => Raised RecursionError
        | S _ =>
            match skip_ws s' with
            | q :: s1 =>
                if q =? 93 then Decoded (PyList [], s1)
                else '(vs, rest) ← elements (q :: s1);
                     Decoded (PyList vs, rest)
            | [] => DecodeError
            end
        end
      else if startswith s (lit "null") then Decoded (PyNone, drop 4 s)
      else if startswith s (lit "true") then Decoded (PyBool true, drop 4 s)
      else if startswith s (lit "false")
      then Decoded (PyBool false, drop 5 s)
      else
        match match_number s with
        | Some (int, frac, exp, rest) =>
            v ← number_outcome env int frac exp; Decoded (v, rest)
        | None =>
            if startswith s (lit "NaN")
            then Decoded (PyFloat (lit "NaN"), drop 3 s)
            else if startswith s (lit "Infinity")
            then Decoded (PyFloat (lit "Infinity"), drop 8 s)
            else if startswith s (lit "-Infinity")
            then Decoded (PyFloat (lit "-Infinity"), drop 9 s)
            else DecodeError
        end
  end.

(** One round of the loop of [JSONObject], from the character after the
    opening quote of a key. *)
Definition members_body
    (scan_once : pystr -> outcome (pyval * pystr))
    (members : pystr -> outcome (list (pystr * pyval) * pystr))
    (s : pystr) : outcome (list (pystr * pyval) * pystr) :=
  '(key, s1) ← of_option (scanstring s);
  match skip_ws s1 with
  | colon :: s2 =>
      if colon =? 58 then
        '(value, s3) ← scan_once (skip_ws s2);
        match skip_ws s3 with
        | d :: s4 =>
            if d =? 125 then Decoded ([(key, value)], s4)
            else if d =? 44 then
              match skip_ws s4 with
              | q :: s5 =>
                  if q =? 34 then
                    '(pairs, rest) ← members s5;
                    Decoded ((key, value) :: pairs, rest)
                  else DecodeError
              | [] => DecodeError
              end
            else DecodeError
        | [] => DecodeError
        end
      else DecodeError
  | [] => DecodeError
  end.

(** One round of the loop of [JSONArray], from the first character of an
    item. *)
Definition elements_body
    (scan_once : pystr -> outcome (pyval * pystr))
    (elements : pystr -> outcome (list pyval * pystr))
    (s : pystr) : outcome (list pyval * pystr) :=
  '(value, s1) ← scan_once s;
  match skip_ws s1 with
  | d :: s2 =>
      if d =? 93 then Decoded ([value], s2)
      else if d =? 44 then
        '(vs, rest) ← elements (skip_ws s2);
        Decoded (value :: vs, rest)
      else DecodeError
  | [] => DecodeError
  end.

(** [scan_once], [JSONObject] and [JSONArray]; every call takes one unit
    of [fuel], and what is inside an array or an object is scanned one
    level deeper. *)
Fixpoint scan_once (env : Env) (fuel depth : nat) (s : pystr)
  : outcome (pyval * pystr) :=
  match fuel with
  | O => DecodeError
  | S fuel =>
      scan_once_body env depth (members env fuel (pred depth))
                     (elements env fuel (pred depth)) s
  end
with members (env : Env) (fuel depth : nat) (s : pystr)
  : outcome (list (pystr * pyval) * pystr) :=
  match fuel with
  | O => DecodeError
  | S fuel =>
      members_body (scan_once env fuel depth) (members env fuel depth) s
  end
with elements (env : Env) (fuel depth : nat) (s : pystr)
  : outcome (list pyval * pystr) :=
  match fuel with
  | O => DecodeError
  | S fuel =>
      elements_body (scan_once env fuel depth) (elements env fuel depth) s
  end.

(** [json.loads(s)]: one value, surrounded by optional whitespace. *)
Definition loads (env : Env) (s : pystr) : outcome pyval :=
  '(v, rest) ← scan_once env (2 * length s + 2) (recursion_remaining env)
                 (skip_ws s);
  match skip_ws rest with
  | [] => Decoded v
  | _ :: _ => DecodeError
  end.

End Json.

(** ** [agents/backends/react.py] *)

Module ReAct.

(** [class ReActResponse(BaseModel)] *)
Record ReActResponse : Type := {
  Thought : pystr;
  Action : option pystr;
  ActionInput : option (list (pystr * pyval));
  Answer : option pystr
}.

(** The local dictionary [results] of [__parse].  The entry
    ["Action Input"] holds whatever [json.loads] returned, or the raw
    string; [PyNone] is Python's [None]. *)
Record Results : Type := {
  r_Thought : option pystr;
  r_Action : option pystr;
  r_ActionInput : pyval;
  r_Answer : option pystr
}.

Definition set_Action (v : pystr) (r : Results) : Results :=
  {| r_Thought := r_Thought r; r_Action := Some v;
     r_ActionInput := r_ActionInput r; r_Answer := r_Answer r |}.

Definition set_ActionInput (v : pyval) (r : Results) : Results :=
  {| r_Thought := r_Thought r; r_Action := r_Action r;
     r_ActionInput := v; r_Answer := r_Answer r |}.

Definition set_Answer (v : pystr) (r : Results) : Results :=
  {| r_Thought := r_Thought r; r_Action := r_Action r;
     r_ActionInput := r_ActionInput r; r_Answer := Some v |}.

Definition is_empty (s : pystr) : bool :=
  match s with [] => true | _ :: _ => false end.

(** [line.split(key, 1)[1].strip()] *)
Definition remainder (key line : pystr) : result pystr :=
  rest ← subscript (split_once key line) 1; Ok (strip rest).

(** The [try]/[except json.JSONDecodeError] of the Action Input branch:
    the decoding error gives the raw string, any other exception of
    [json.loads] is not caught. *)
Definition action_input_value (env : Json.Env) (action_input_str : pystr)
  : result pyval :=
  match Json.loads env action_input_str with
  | Json.Decoded v => Ok v
  | Json.DecodeError => Ok (PyStr action_input_str)
  | Json.Raised e => Raise e
  end.

(** The [while lines:] loop.  [lines.pop(0)] takes the head; the Answer
    branch joins what is left and breaks. *)
Fixpoint scan (env : Json.Env) (lines : list pystr) (results : Results)
  : result Results :=
  match lines with
  | [] => Ok results
  | line :: lines =>
      if is_empty (strip line) then scan env lines results
      else if startswith line (lit "Action:") then
        v ← remainder (lit "Action:") line;
        scan env lines (set_Action v results)
      else if startswith line (lit "Action Input:") then
        action_input_str ← remainder (lit "Action Input:") line;
        v ← action_input_value env action_input_str;
        scan env lines (set_ActionInput v results)
      else if startswith line (lit "Answer:") then
        v ← remainder (lit "Answer:") line;
        Ok (set_Answer (v ++ [nl] ++ join [nl] lines) results)
      else scan env lines results
  end.

Definition is_None (v : pyval) : bool :=
  match v with PyNone => true | _ => false end.

Definition is_set {A : Type} (o : option A) : bool :=
  match o with Some _ => true | None => false end.

(** The constructor call of [ReActResponse] on [results]: pydantic (version
    2) checks every field against its annotation.  [Thought], [Action] and
    [Answer] hold strings (or [None]) by construction; the field
    [ActionInput: Optional[Dict[str, Any]]] accepts [None] and dictionaries
    only, and the keys of a decoded JSON object are strings. *)
Definition validate (thought : pystr) (r : Results) : result ReActResponse :=
  match r_ActionInput r with
  | PyNone =>
      Ok {| Thought := thought; Action := r_Action r;
            ActionInput := None; Answer := r_Answer r |}
  | PyDict d =>
      Ok {| Thought := thought; Action := r_Action r;
            ActionInput := Some d; Answer := r_Answer r |}
  | _ => Raise (ValidationError (lit "ActionInput"))
  end.

(** The part of [__parse] after the loop. *)
Definition finish (thought : pystr) (r : Results) : result ReActResponse :=
  if is_set (r_Action r) && is_None (r_ActionInput r)
  then Raise (ValueError (lit "Action specified without Action Input"))
  else
    let r := if is_set (r_Action r) && negb (is_set (r_Answer r))
             then set_Answer [] r else r in
    validate thought r.

(** [ReActBackend.__parse]; [env] is what [json.loads] depends on besides
    its argument. *)
Definition parse (env : Json.Env) (text : pystr) : result ReActResponse :=
  match split_lines (strip text) with
  | line0 :: lines =>
      if startswith line0 (lit "Thought:") then
        thought ← remainder (lit "Thought:") line0;
        results ← scan env lines
                    {| r_Thought := Some thought;
                       r_Action := None;
                       r_ActionInput := PyNone;
                       r_Answer := None |};
        finish thought results
      else Raise FormatException
  | [] => Raise FormatException
  end.

(** [ReActBackend.parse_for_result] *)
Definition parse_for_result (env : Json.Env) (text : pystr)
  : result (option pystr) :=
  response ← parse env text; Ok (Answer response).

(** [ReActBackend.parse_for_tool_calls]; [not response.Action] holds for
    [None] and for the empty string. *)
Definition parse_for_tool_calls (env : Json.Env) (text : pystr)
  : result (list (pystr * option (list (pystr * pyval)))) :=
  response ← parse env text;
  Ok match Action response with
     | None => []
     | Some [] => []
     | Some name => [(name, ActionInput response)]
     end.

(** *** Reading [__parse] line by line

    The lines the loop examines are those before the first [Answer:]
    line; the last [Action:] and [Action Input:] lines among them
    decide the two entries, unless [json.loads] raises on an
    [Action Input:] line before, and the first [Answer:] line decides the
    answer. *)

Definition after (key line : pystr) : pystr := strip (drop (length key) line).

Fixpoint scanned (lines : list pystr) : list pystr :=
  match lines with
  | [] => []
  | line :: lines =>
      if startswith line (lit "Answer:") then [] else line :: scanned lines
  end.

Fixpoint answer_of (lines : list pystr) : option pystr :=
  match lines with
  | [] => None
  | line :: lines =>
      if startswith line (lit "Answer:")
      then Some (after (lit "Answer:") line ++ [nl] ++ join [nl] lines)
      else answer_of lines
  end.

Definition last_action (lines : list pystr) (init : option pystr)
  : option pystr :=
  fold_left (fun acc line =>
               if startswith line (lit "Action:")
               then Some (after (lit "Action:") line) else acc)
            lines init.

(** The entry ["Action Input"] once the loop has gone through [lines],
    or the first exception that [json.loads] raised on the way. *)
Fixpoint last_input (env : Json.Env) (lines : list pystr) (init : pyval)
  : result pyval :=
  match lines with
  | [] => Ok init
  | line :: lines =>
      if startswith line (lit "Action Input:") then
        v ← action_input_value env (after (lit "Action Input:") line);
        last_input env lines v
      else last_input env lines init
  end.

(** An [Action Input:] line on which [json.loads] raises an exception
    that is not its decoding error. *)
Definition input_raises (env : Json.Env) (line : pystr) : Prop :=
  startswith line (lit "Action Input:") = true /\
  exists e, Json.loads env (after (lit "Action Input:") line) = Json.Raised e.

(** What a line can be for the loop of [scan]. *)
Inductive line_kind (line : pystr) : Prop :=
| is_action :
    startswith line (lit "Action:") = true ->
    startswith line (lit "Action Input:") = false ->
    startswith line (lit "Answer:") = false ->
    is_empty (strip line) = false -> line_kind line
| is_action_input :
    startswith line (lit "Action:") = false ->
    startswith line (lit "Action Input:") = true ->
    startswith line (lit "Answer:") = false ->
    is_empty (strip line) = false -> line_kind line
| is_answer :
    startswith line (lit "Action:") = false ->
    startswith line (lit "Action Input:") = false ->
    startswith line (lit "Answer:") = true ->
    is_empty (strip line) = false -> line_kind line
| is_other :
    startswith line (lit "Action:") = false ->
    startswith line (lit "Action Input:") = false ->
    startswith line (lit "Answer:") = false -> line_kind line.

(** The first line of the text that is not empty, as the text has it. *)
Definition first_nonempty_line (text : pystr) : option pystr :=
  head (filter (fun line => line <> []) (split_lines text)).

(** *** [tool_results_to_prompts] *)

(** An argument value or a tool result, as far as the formatting
    distinguishes them: a [str], or any other object together with the
    text that an f-string gives for it. *)
Inductive pyobj : Type :=
| Str (s : pystr)
| NonStr (text : pystr).

(** [f"{value}"] *)
Definition format (v : pyobj) : pystr :=
  match v with Str s => s | NonStr text => text end.

Inductive Role : Type := system | user | assistant.

Record Message : Type := { role : Role; content : pystr }.

Definition Prompt : Type := list Message.
Definition ToolArguments : Type := list (pystr * pyobj).
Definition ToolResults : Type := list (pystr * ToolArguments * pyobj).

(** The inner loop over [args.items()]. *)
Fixpoint format_args (args : ToolArguments) (first_tool : bool) (out : pystr)
  : pystr :=
  match args with
  | [] => out
  | (arg, value) :: args =>
      let out := if first_tool then out else out ++ lit ", " in
      let out := out ++ arg ++ lit "=" in
      let out := match value with
                 | Str s => out ++ [dquote] ++ s ++ [dquote]
                 | NonStr text => out ++ text
                 end in
      format_args args false out
  end.

(** [ReActBackend.tool_results_to_prompts]; [prompt.append] extends the
    list that is returned. *)
Fixpoint tool_results_to_prompts (prompt : Prompt) (results : ToolResults)
  : Prompt :=
  match results with
  | [] => prompt
  | (name, args, result) :: results =>
      let out := lit "---" ++ [nl] ++ name ++ lit "(" in
      let out := format_args args true out in
      let out := out ++ lit ") returned:" ++ [nl] ++ format result ++ [nl] in
      tool_results_to_prompts
        (prompt ++ [{| role := system; content := out |}]) results
  end.




End ReAct.
Import ReAct.

(** ** [agents/tools/tool.py] (not among the sources) *)

Module ToolModel.

(** Modelled from the spec: the class [Tool] of [agents/tools/tool.py] is
    missing.  The spec gives a tool a name, a description and an ordered
    list of arguments (name, type label, description, required flag);
    the constructor stores what it is given. *)
Record Argument : Type := {
  arg_name : pystr;
  arg_type : pystr;
  arg_description : pystr;
  arg_required : bool
}.

Record Tool : Type := {
  name : pystr;
  args : list Argument;
  description : pystr;
  examples : list pystr
}.

End ToolModel.

(** ** [agents/flow/retry.py] *)

Module Retry.
Import ToolModel.

Section WithExceptions.

(** Exception objects, exception classes, and [isinstance]. *)
Variables (exn cls : Type) (isinstance : exn -> cls -> bool).
(** The class [Exception]. *)
Variable Exception : cls.

(** The argument [exceptions] of the constructor. *)
Inductive exceptions_arg : Type :=
| NoExceptions
| ExceptionList (l : list cls)
| OneException (c : cls).

(** [class Retry(Tool)]: the inherited attributes and the private ones;
    the delay is a number of time units. *)
Record Retry : Type := {
  tool_attrs : Tool;
  _tool : Tool;
  _max_retries : Z;
  _delay : Z;
  _exceptions : list cls
}.

(** [not name] holds for [None] and for the empty string. *)
Definition falsy (o : option pystr) : bool :=
  match o with None | Some [] => true | Some (_ :: _) => false end.

(** [Retry.__init__] *)
Definition init (tool : Tool) (max_retries : Z)
    (exceptions : exceptions_arg) (delay : Z)
    (name description : option pystr) : Retry :=
  let excs := match exceptions with
              | NoExceptions => [Exception]
              | ExceptionList l => l
              | OneException c => [c]
              end in
  let name := if falsy name
              then ToolModel.name tool ++ lit "::retry_"
                   ++ str_of_int max_retries
              else default [] name in
  let description := if falsy description
                     then ToolModel.description tool
                     else default [] description in
  {| tool_attrs := {| ToolModel.name := name;
                      args := args tool;
                      ToolModel.description := description;
                      examples := examples tool |};
     _tool := tool;
     _max_retries := max_retries;
     _delay := delay;
     _exceptions := excs |}.

(** [except self._exceptions as e] catches [e] when it is an instance of
    one of the classes. *)
Definition catches (excs : list cls) (e : exn) : bool :=
  existsb (isinstance e) excs.

(** The base tool's [invoke] on the context and arguments of the call:
    a transition of the world [W] the tool acts on, which returns a
    value or raises. *)
Variables (W Ret : Type) (invoke : W -> (Ret + exn) * W).

(** What one execution has done so far: the world, the number of calls
    of the base tool, and the delays slept. *)
Record Run : Type := {
  world : W;
  calls : nat;
  slept : list Z
}.

Definition start (w : W) : Run := {| world := w; calls := 0; slept := [] |}.

Inductive outcome : Type :=
| Returned (r : Ret)
| Raised (e : exn)
| TypeError.   (* [raise None] *)

(** [raise last_exception] *)
Definition raise_last (last_exception : option exn) : outcome :=
  match last_exception with
  | Some e => Raised e
  | None => TypeError
  end.

(** [time.sleep(self._delay)] under [if self._delay > 0] *)
Definition sleep (delay : Z) (st : Run) : Run :=
  if (0 <? delay)%Z
  then {| world := world st; calls := calls st;
          slept := slept st ++ [delay] |}
  else st.

(** The [while attempts <= self._max_retries] loop; every iteration
    takes one unit of [fuel]. *)
Fixpoint retry_loop (self : Retry) (fuel : nat) (attempts : Z)
    (last_exception : option exn) (st : Run) : option (outcome * Run) :=
  match fuel with
  | O => None
  | S fuel =>
      if (attempts <=? _max_retries self)%Z then
        let '(res, w) := invoke (world st) in
        let st := {| world := w; calls := S (calls st);
                     slept := slept st |} in
        match res with
        | inl r => Some (Returned r, st)
        | inr e =>
            if catches (_exceptions self) e then
              let attempts := (attempts + 1)%Z in
              if (attempts <=? _max_retries self)%Z
              then retry_loop self fuel attempts (Some e)
                     (sleep (_delay self) st)
              else Some (raise_last (Some e), st)
            else Some (Raised e, st)
        end
      else Some (raise_last last_exception, st)
  end.

(** [Retry.retry_invoke] *)
Definition retry_invoke (self : Retry) (w : W) : option (outcome * Run) :=
  retry_loop self (S (Z.to_nat (_max_retries self + 1))) 0 None (start w).

(** The base tool, called repeatedly from [w], raises the exceptions
    [es] in this order and then returns [r], leaving the world [w']. *)
Inductive fails_then_succeeds : W -> list exn -> Ret -> W -> Prop :=
| fts_ok w r w' :
    invoke w = (inl r, w') -> fails_then_succeeds w [] r w'
| fts_fail w e w1 es r w' :
    invoke w = (inr e, w1) ->
    fails_then_succeeds w1 es r w' ->
    fails_then_succeeds w (e :: es) r w'.

(** The base tool, called repeatedly from [w], raises the exceptions
    [es] and then raises [e], leaving the world [w']. *)
Inductive fails_then_raises : W -> list exn -> exn -> W -> Prop :=
| ftr_last w e w' :
    invoke w = (inr e, w') -> fails_then_raises w [] e w'
| ftr_fail w e0 w1 es e w' :
    invoke w = (inr e0, w1) ->
    fails_then_raises w1 es e w' ->
    fails_then_raises w (e0 :: es) e w'.

End WithExceptions.

Arguments NoExceptions {cls}.
Arguments ExceptionList {cls} l.
Arguments OneException {cls} c.
Arguments tool_attrs {cls} r.
Arguments _tool {cls} r.
Arguments _max_retries {cls} r.
Arguments _delay {cls} r.
Arguments _exceptions {cls} r.
Arguments init {cls} Exception tool max_retries exceptions delay
  name description.
Arguments catches {exn cls} isinstance excs e.
Arguments world {W} r.
Arguments calls {W} r.
Arguments slept {W} r.
Arguments start {W} w.
Arguments sleep {W} delay st.
Arguments Returned {exn Ret} r.
Arguments Raised {exn Ret} e.
Arguments TypeError {exn Ret}.
Arguments raise_last {exn Ret} last_exception.
Arguments retry_loop {exn cls} isinstance {W Ret} invoke
  self fuel attempts last_exception st.
Arguments retry_invoke {exn cls} isinstance {W Ret} invoke self w.
Arguments fails_then_succeeds {exn W Ret} invoke _ _ _ _.
Arguments fails_then_raises {exn W Ret} invoke _ _ _ _.

(** The outcome of one call of the base tool, as the wrapper passes it on. *)
Definition passed_on {exn Ret : Type} (res : Ret + exn) : outcome exn Ret :=
  match res with
  | inl r => Returned r
  | inr e => Raised e
  end.

End Retry.

(** ** [agents/registrar/registrar.py] *)

Module Registrar.

(** A tool is an object: what the registrar holds is a reference to it. *)
Abbreviation ref := nat.

(** The callables a tool can have in its call-listener list. *)
Inductive hook : Type :=
| on_tool_call_hook            (* [Registrar._on_tool_call] *)
| other_hook (n : nat).

(** Modelled from the spec: the class [Tool] of [agents/tools/tool.py] is
    missing.  A tool has an identity [id] and owns a list of
    call-listeners, which it notifies synchronously on invocation. *)
Record ToolObj : Type := {
  id : pystr;
  tool_name : pystr;
  on_call_listeners : list hook
}.

(** The class attributes of [Registrar], the tool objects, and the tasks
    handed to the executor (listener, tool, context). *)
Record State : Type := {
  _enabled : bool;
  _tools : list (pystr * ref);
  on_tool_call_listeners : list nat;
  heap : gmap ref ToolObj;
  submitted : list (nat * ref * nat)
}.

Definition initial (h : gmap ref ToolObj) : State :=
  {| _enabled := false; _tools := []; on_tool_call_listeners := [];
     heap := h; submitted := [] |}.

(** [key in d] *)
Definition dict_mem {V : Type} (k : pystr) (d : list (pystr * V)) : bool :=
  existsb (fun kv => pystr_eqb k (fst kv)) d.

(** Modelled from the spec: [Tool.add_on_call_listener] of the missing
    [agents/tools/tool.py]; the tool's call-listener list gains the hook. *)
Definition add_on_call_listener (h : hook) (t : ToolObj) : ToolObj :=
  {| id := id t; tool_name := tool_name t;
     on_call_listeners := on_call_listeners t ++ [h] |}.

(** [Registrar.register]; [None] when [tool] refers to no object. *)
Definition register (tool : ref) (s : State) : option State :=
  t ← heap s !! tool;
  let _ := if dict_mem (id t) (_tools s) then tt else tt in
  Some {| _enabled := _enabled s;
          _tools := dict_set (id t) tool (_tools s);
          on_tool_call_listeners := on_tool_call_listeners s;
          heap := <[tool := add_on_call_listener on_tool_call_hook t]>
                    (heap s);
          submitted := submitted s |}.

(** [Registrar.get_tools] *)
Definition get_tools (s : State) : list ref := map snd (_tools s).

(** [Registrar.add_tool_call_listener] *)
Definition add_tool_call_listener (listener : nat) (s : State) : State :=
  {| _enabled := _enabled s; _tools := _tools s;
     on_tool_call_listeners := on_tool_call_listeners s ++ [listener];
     heap := heap s; submitted := submitted s |}.

(** [Registrar.set_auto_registry], [enable] and [disable] *)
Definition set_auto_registry (enabled : bool) (s : State) : State :=
  {| _enabled := enabled; _tools := _tools s;
     on_tool_call_listeners := on_tool_call_listeners s;
     heap := heap s; submitted := submitted s |}.
Definition enable : State -> State := set_auto_registry true.
Definition disable : State -> State := set_auto_registry false.

(** [Registrar._on_tool_call]: one task per listener when enabled. *)
Definition _on_tool_call (tool : ref) (ctx : nat) (s : State) : State :=
  if _enabled s then
    {| _enabled := _enabled s; _tools := _tools s;
       on_tool_call_listeners := on_tool_call_listeners s;
       heap := heap s;
       submitted := submitted s
                    ++ map (fun listener => (listener, tool, ctx))
                           (on_tool_call_listeners s) |}
  else s.

(** Modelled from the spec: an invocation of a tool, as far as the
    registrar sees it; the tool calls every hook of its call-listener
    list in turn. *)
Definition notify (tool : ref) (ctx : nat) (s : State) (h : hook) : State :=
  match h with
  | on_tool_call_hook => _on_tool_call tool ctx s
  | other_hook _ => s
  end.

Definition invoke (tool : ref) (ctx : nat) (s : State) : option State :=
  t ← heap s !! tool;
  Some (fold_left (notify tool ctx) (on_call_listeners t) s).

(** A sequence of calls, one after the other. *)
Definition run (calls : list (State -> option State)) (s : State)
  : option State :=
  fold_left (fun acc call => acc ≫= call) calls (Some s).

(** [Registrar.is_enabled] *)
Definition is_enabled (s : State) : bool := _enabled s.

(** [_on_tool_call] for a sequence of events (tool, context), in order. *)
Definition on_tool_calls (events : list (ref * nat)) (s : State) : State :=
  fold_left (fun s ev => _on_tool_call (fst ev) (snd ev) s) events s.

(** The tasks one event gives rise to: one per listener, in the order the
    listeners were added. *)
Definition tasks_of (listeners : list nat) (ev : ref * nat)
  : list (nat * ref * nat) :=
  map (fun listener => (listener, fst ev, snd ev)) listeners.

(** A state with two registered tools and a third, unregistered one, for
    the examples. *)
Definition example_state (enabled : bool) (listeners : list nat) : State :=
  {| _enabled := enabled;
     _tools := [(lit "search", 0%nat); (lit "fetch", 1%nat)];
     on_tool_call_listeners := listeners;
     heap := <[0%nat := {| id := lit "search"; tool_name := lit "search";
                           on_call_listeners := [on_tool_call_hook] |}]>
             (<[1%nat := {| id := lit "fetch"; tool_name := lit "fetch";
                            on_call_listeners := [on_tool_call_hook] |}]>
              (<[2%nat := {| id := lit "crawl"; tool_name := lit "crawl";
                             on_call_listeners := [] |}]> ∅));
     submitted := [] |}.

End Registrar.

(** ** [arkaine/toolbox/wikipedia.py] *)

Module Wikipedia.

(** [c in chars] *)
Definition in_chars (chars : pystr) (c : N) : bool := existsb (N.eqb c) chars.

Fixpoint lstrip_chars (chars s : pystr) : pystr :=
  match s with
  | [] => []
  | c :: s' => if in_chars chars c then lstrip_chars chars s' else s
  end.

Fixpoint rstrip_chars (chars s : pystr) : pystr :=
  match s with
  | [] => []
  | c :: s' =>
      match rstrip_chars chars s' with
      | [] => if in_chars chars c then [] else [c]
      | r => c :: r
      end
  end.

(** [s.strip(chars)] *)
Definition strip_chars (chars s : pystr) : pystr :=
  rstrip_chars chars (lstrip_chars chars s).

(** [line[-1]] *)
Definition subscript_last {A : Type} (l : list A) : result A :=
  match last l with
  | Some a => Ok a
  | None => Raise IndexError
  end.

(** [line[0] == "=" and line[-1] == "="]; the second subscript is taken
    only when the first comparison holds. *)
Definition is_header (line : pystr) : result bool :=
  first ← subscript line 0;
  if first =? 61 then
    final ← subscript_last line; Ok (final =? 61)
  else Ok false.

(** The three local variables of [__break_down_content]. *)
Record Sections : Type := {
  sections : list (pystr * pystr);
  current_section : list pystr;
  current_title : pystr
}.

(** [if len(current_section) > 0: sections[current_title] = " ".join(...)] *)
Definition flush (st : Sections) : list (pystr * pystr) :=
  match current_section st with
  | [] => sections st
  | _ :: _ =>
      dict_set (current_title st) (join (lit " ") (current_section st))
               (sections st)
  end.

(** The loop over [content.split("\n")]. *)
Fixpoint break_loop (lines : list pystr) (st : Sections) : result Sections :=
  match lines with
  | [] => Ok st
  | line :: lines =>
      if is_empty (strip line) then break_loop lines st
      else
        header ← is_header line;
        if header : bool then
          break_loop lines {| sections := flush st;
                              current_section := [];
                              current_title := strip_chars (lit " =") line |}
        else
          break_loop lines {| sections := sections st;
                              current_section := current_section st ++ [line];
                              current_title := current_title st |}
  end.

(** [WikipediaPage.__break_down_content] *)
Definition break_down_content (content : pystr)
  : result (list (pystr * pystr)) :=
  let content := lit "= Title =" ++ [nl; nl] ++ content in
  st ← break_loop (split_lines content)
         {| sections := []; current_section := []; current_title := [] |};
  Ok (flush st).

(** The lines of a text that the loop does not skip. *)
Definition nonblank_lines (content : pystr) : list pystr :=
  List.filter (fun line => negb (is_empty (strip line))) (split_lines content).

(** A line that is not blank and is a section header. *)
Definition header_line (line : pystr) : bool :=
  negb (is_empty (strip line)) &&
  match head line, last line with
  | Some a, Some b => (a =? 61) && (b =? 61)
  | _, _ => false
  end.

(** What the loop does with a line that is not blank. *)
Definition step (st : Sections) (line : pystr) : Sections :=
  if header_line line
  then {| sections := flush st; current_section := [];
          current_title := strip_chars (lit " =") line |}
  else {| sections := sections st;
          current_section := current_section st ++ [line];
          current_title := current_title st |}.

(** What the loop keeps: the stored texts are not empty, the lines
    gathered for the current section are not empty, and the titles are
    trimmed of spaces and equals signs. *)
Definition tidy (st : Sections) : Prop :=
  Forall (fun kv => snd kv <> [] /\
                    strip_chars (lit " =") (fst kv) = fst kv) (sections st) /\
  Forall (fun line => line <> []) (current_section st) /\
  strip_chars (lit " =") (current_title st) = current_title st.

(** The heading [topic_query] puts before the titles. *)
Definition topics_heading : pystr :=
  lit "The following are titles to pages that match your query:".

(** [WikipediaTopicQuery.topic_query], on the list of titles that
    [wikipedia.search(query)] returned. *)
Definition topic_query (topics : list pystr) : pystr :=
  match topics with
  | [] => lit "No topics match this query"
  | _ :: _ =>
      fold_left (fun out topic => out ++ topic ++ [nl]) topics
        (topics_heading ++ [nl])
  end.

End Wikipedia.

(** ** [arkaine/toolbox/websearcher.py] *)

Module WebSearcher.

(** [re.sub] with a pattern that is one character [c] followed by [.*]:
    on every line, [c] and what follows it are removed.  [skipping] says
    that a [c] was met on the current line. *)
Fixpoint cut_from (c : N) (skipping : bool) (s : pystr) : pystr :=
  match s with
  | [] => []
  | x :: s' =>
      if x =? nl then x :: cut_from c false s'
      else if skipping then cut_from c true s'
      else if x =? c then cut_from c true s'
      else x :: cut_from c false s'
  end.

Fixpoint drop_slashes (s : pystr) : pystr :=
  match s with
  | [] => []
  | x :: s' => if x =? 47 then drop_slashes s' else s
  end.

(** Where [$] matches: at the end of the string, and before a newline
    that ends the string. *)
Definition at_end (s : pystr) : bool :=
  match s with
  | [] => true
  | [x] => x =? nl
  | _ :: _ :: _ => false
  end.

(** [re.sub] with the pattern of one or more slashes followed by [$]. *)
Fixpoint sub_trailing_slashes (s : pystr) : pystr :=
  match s with
  | [] => []
  | x :: s' =>
      if (x =? 47) && at_end (drop_slashes s') then drop_slashes s'
      else x :: sub_trailing_slashes s'
  end.

(** [re.sub] with the pattern [^https?://]. *)
Definition sub_scheme (s : pystr) : pystr :=
  if startswith s (lit "https://") then drop 8 s
  else if startswith s (lit "http://") then drop 7 s
  else s.

(** [re.sub] with the pattern [^www.], the dot being a literal dot. *)
Definition sub_www (s : pystr) : pystr :=
  if startswith s (lit "www.") then drop 4 s else s.

(** [WebSearcher.__strip_url] *)
Definition strip_url (url : pystr) : pystr :=
  let url := cut_from 63 false url in
  let url := cut_from 35 false url in
  let url := sub_trailing_slashes url in
  let url := sub_scheme url in
  sub_www url.

(** A URL without decoration: no query, fragment or newline in it, not
    empty and not ending with a slash, and not starting with a scheme or
    with [www.]. *)
Definition bare (u : pystr) : Prop :=
  ~ In 63 u /\ ~ In 35 u /\ ~ In nl u /\
  (exists u0 y, u = u0 ++ [y] /\ y <> 47) /\
  startswith u (lit "http://") = false /\
  startswith u (lit "https://") = false /\
  startswith u (lit "www.") = false.

(** A query or a fragment, on one line, or nothing. *)
Definition query_or_fragment (tail : pystr) : Prop :=
  tail = [] \/
  exists c t, tail = c :: t /\ (c = 63 \/ c = 35) /\ ~ In nl t.

Section WithWebsite.

(** The class [Website] of [arkaine/toolbox/websearch.py] is not among the
    sources; the code below reads its attribute [url] only. *)
Variables (Website : Type) (url : Website -> pystr).

(** The loop that fills the [OrderedDict]. *)
Definition keep_first (unique_results : list (pystr * Website))
    (result : Website) : list (pystr * Website) :=
  let stripped_url := strip_url (url result) in
  if Registrar.dict_mem stripped_url unique_results then unique_results
  else dict_set stripped_url result unique_results.

(** [WebSearcher.process_search_results] *)
Definition process_search_results (results : list (list Website))
  : list Website :=
  let results := concat results in
  let unique_results := fold_left keep_first results [] in
  map snd unique_results.

(** The results whose stripped URL is not in [seen] and not the stripped
    URL of an earlier result. *)
Fixpoint firsts (seen : list pystr) (results : list Website) : list Website :=
  match results with
  | [] => []
  | r :: results =>
      if bool_decide (strip_url (url r) ∈ seen) then firsts seen results
      else r :: firsts (strip_url (url r) :: seen) results
  end.

End WithWebsite.

Arguments keep_first {Website} url unique_results result.
Arguments process_search_results {Website} url results.
Arguments firsts {Website} url seen results.

(** A search result for the examples: its URL and its title. *)
Record Site : Type := { site_url : pystr; site_title : pystr }.

End WebSearcher.

(** ** A concrete tool for the examples *)

Module Flaky.

(** Three exception classes; [Exception] is the base of the other two. *)
Inductive cls : Type := Exception | TimeoutError | KeyError.

(** An exception object: its class and the number of the call that
    raised it. *)
Record exn : Type := { class_of : cls; call_no : nat }.

Definition cls_eqb (a b : cls) : bool :=
  match a, b with
  | Exception, Exception | TimeoutError, TimeoutError
  | KeyError, KeyError => true
  | _, _ => false
  end.

Definition isinstance (e : exn) (c : cls) : bool :=
  match c with
  | Exception => true
  | _ => cls_eqb (class_of e) c
  end.

(** A tool that times out on its first two calls and then returns the
    number of calls made; the world is the number of calls so far. *)
Definition invoke (w : nat) : (nat + exn) * nat :=
  if Nat.ltb w 2
  then (inr {| class_of := TimeoutError; call_no := S w |}, S w)
  else (inl (S w), S w).

Definition base : ToolModel.Tool :=
  {| ToolModel.name := lit "search";
     ToolModel.args := [{| ToolModel.arg_name := lit "q";
                           ToolModel.arg_type := lit "str";
                           ToolModel.arg_description := lit "the query";
                           ToolModel.arg_required := true |}];
     ToolModel.description := lit "searches the web";
     ToolModel.examples := [] |}.

Definition wrapped (max_retries : Z) (exceptions : Retry.exceptions_arg cls)
  : Retry.Retry cls :=
  Retry.init Exception base max_retries exceptions 0 None None.

End Flaky.

(** * Properties *)

(** ** Strings *)

Section StringFacts.

Lemma split_once_startswith sep s :
  startswith s sep = true ->
  split_once sep s = [[]; drop (length sep) s].
Proof. intros H. destruct s; cbn [split_once]; rewrite H; reflexivity. Qed.

Lemma lstrip_nonspace c s : isspace c = false -> lstrip (c :: s) = c :: s.
Proof. intros H. simpl. rewrite H. reflexivity. Qed.

Lemma rstrip_cons_nonspace c s : isspace c = false -> rstrip (c :: s) <> [].
Proof. intros H. simpl. destruct (rstrip s); [rewrite H|]; discriminate. Qed.

(** A line that starts with a key whose first character is not a space
    is not blank. *)
Lemma startswith_not_blank line c key :
  isspace c = false ->
  startswith line (c :: key) = true ->
  strip line <> [].
Proof.
  intros Hc H. destruct line as [|b line]; [discriminate|].
  cbn [startswith] in H. apply andb_true_iff in H as [Hb _].
  apply N.eqb_eq in Hb. subst b.
  unfold strip. rewrite lstrip_nonspace by assumption.
  apply rstrip_cons_nonspace; assumption.
Qed.

Lemma startswith_app s p : startswith (p ++ s) p = true.
Proof.
  induction p as [|a p IH]; cbn [startswith app]; [reflexivity|].
  rewrite N.eqb_refl. exact IH.
Qed.

Lemma startswith_prefix s p :
  startswith s p = true -> s = p ++ drop (length p) s.
Proof.
  revert s. induction p as [|a p IH]; intros s H; [reflexivity|].
  destruct s as [|b s]; [discriminate|]. cbn [startswith] in H.
  apply andb_true_iff in H as [Hb H]. apply N.eqb_eq in Hb. subst b.
  cbn [length drop app]. f_equal. apply IH. exact H.
Qed.

(** Two keys that differ at some position cannot both start a line. *)
Lemma startswith_exclusive s p q :
  startswith p q = false -> startswith q p = false ->
  startswith s p = true -> startswith s q = false.
Proof.
  revert s q. induction p as [|a p IH]; intros s q Hpq Hqp Hs.
  - destruct q; discriminate.
  - destruct q as [|b q]; [discriminate|].
    destruct s as [|c s]; [discriminate|].
    cbn [startswith] in *. apply andb_true_iff in Hs as [Hc Hs].
    apply N.eqb_eq in Hc. subst c.
    destruct (N.eqb_spec b a) as [->|Hne]; cbn [andb].
    + rewrite N.eqb_refl in Hqp. cbn [andb] in Hpq, Hqp. eauto.
    + reflexivity.
Qed.

End StringFacts.

(** ** The decoder and its fuel *)

Section JsonFuel.
Import Json.
Local Open Scope nat_scope.

Lemma skip_ws_length s : length (skip_ws s) <= length s.
Proof.
  induction s as [|c s IH]; cbn [skip_ws length]; [lia|].
  destruct (is_ws c); cbn [length]; lia.
Qed.

Lemma startswith_length s p : startswith s p = true -> length p <= length s.
Proof.
  revert s. induction p as [|a p IH]; intros s H; cbn [length]; [lia|].
  destruct s as [|b s]; [discriminate|]. cbn [startswith length] in *.
  apply andb_true_iff in H as [_ H]. apply IH in H. lia.
Qed.

Ltac scan_tail IH H :=
  match type of H with
  | context [scanstring ?x] =>
      let E := fresh "E" in
      destruct (scanstring x) as [[? ?]|] eqn:E; cbn in H;
      [inversion H; subst; clear H; apply IH in E;
       [cbn [length] in *; lia | cbn [length] in *; lia]
      | discriminate H]
  end.

Lemma scanstring_length s : forall str rest,
  scanstring s = Some (str, rest) -> length rest < length s.
Proof.
  remember (length s) as n eqn:Hn.
  assert (Hle : length s <= n) by lia. clear Hn. revert s Hle.
  induction n as [|n IH]; intros s Hle str rest H.
  - destruct s; [discriminate|cbn [length] in Hle; lia].
  - destruct s as [|c s1]; [discriminate|]. cbn [scanstring] in H.
    cbn [length] in *.
    destruct (c =? 34)%N; [inversion H; subst; lia|].
    destruct (c =? 92)%N.
    + destruct s1 as [|e s2]; [discriminate|].
      destruct (e =? 117)%N.
      * destruct s2 as [|h1 [|h2 [|h3 [|h4 s3]]]]; try discriminate.
        destruct (hex4 h1 h2 h3 h4) as [uni|]; [|discriminate].
        cbn [mbind option_bind] in H.
        destruct s3 as [|b [|u [|g1 [|g2 [|g3 [|g4 s4]]]]]];
          try (scan_tail IH H).
        destruct (is_high_surrogate uni && (b =? 92)%N && (u =? 117)%N);
          [|scan_tail IH H].
        destruct (hex4 g1 g2 g3 g4) as [uni2|]; [|discriminate].
        cbn [mbind option_bind] in H.
        destruct (is_low_surrogate uni2); scan_tail IH H.
      * destruct (backslash e); [|discriminate].
        cbn [mbind option_bind] in H. scan_tail IH H.
    + destruct (c <? 32)%N; [discriminate|]. scan_tail IH H.
Qed.

Lemma digits_length s : length (snd (digits s)) <= length s.
Proof.
  induction s as [|c s IH]; cbn [digits]; [cbn; lia|].
  destruct (is_digit c); [|cbn; lia].
  destruct (digits s) as [d r]. cbn [snd length] in *. lia.
Qed.

Lemma sign_part_length s : length (snd (sign_part s)) <= length s.
Proof.
  destruct s as [|c s]; cbn [sign_part]; [cbn; lia|].
  destruct (c =? 45)%N; cbn [snd length]; lia.
Qed.

Lemma int_part_length s i rest :
  int_part s = Some (i, rest) -> length rest < length s.
Proof.
  destruct s as [|c s]; cbn [int_part]; [discriminate|].
  destruct (c =? 48)%N; [intros [= <- <-]; cbn; lia|].
  destruct (is_digit c); [|discriminate].
  pose proof (digits_length s) as Hd. destruct (digits s) as [d r].
  intros [= <- <-]. cbn [snd length] in *. lia.
Qed.

Lemma frac_part_length s : length (snd (frac_part s)) <= length s.
Proof.
  destruct s as [|c s]; cbn [frac_part]; [cbn; lia|].
  destruct (c =? 46)%N; [|cbn; lia].
  pose proof (digits_length s) as Hd. destruct (digits s) as [[|d0 d] r];
    cbn [snd length] in *; lia.
Qed.

Lemma exp_part_length s : length (snd (exp_part s)) <= length s.
Proof.
  destruct s as [|c s]; cbn [exp_part]; [cbn; lia|].
  destruct ((c =? 101)%N || (c =? 69)%N); [|cbn; lia].
  destruct s as [|p t].
  - cbn. lia.
  - destruct ((p =? 45)%N || (p =? 43)%N).
    + pose proof (digits_length t) as Hd. destruct (digits t) as [[|d0 d] r];
        cbn [snd length] in *; lia.
    + pose proof (digits_length (p :: t)) as Hd.
      destruct (digits (p :: t)) as [[|d0 d] r];
        cbn [snd length] in *; lia.
Qed.

Lemma match_number_length s i f e rest :
  match_number s = Some (i, f, e, rest) -> length rest < length s.
Proof.
  unfold match_number.
  pose proof (sign_part_length s) as H1.
  destruct (sign_part s) as [sign s1]. cbn [snd] in H1.
  destruct (int_part s1) as [[int s2]|] eqn:E2; [|discriminate].
  apply int_part_length in E2. cbn [mbind option_bind].
  pose proof (frac_part_length s2) as H3.
  destruct (frac_part s2) as [frac s3]. cbn [snd] in H3.
  pose proof (exp_part_length s3) as H4.
  destruct (exp_part s3) as [exp s4]. cbn [snd] in H4.
  intros [= <- <- <- <-]. lia.
Qed.

Ltac literal_case H E n :=
  inversion H; subst; clear H; apply startswith_length in E;
  change (length (lit _)) with n in E; rewrite length_drop;
  cbn [length] in *; lia.

(** Every successful scan consumes at least one character. *)
Lemma scan_length env f :
  (forall depth s v rest,
     scan_once env f depth s = Decoded (v, rest) ->
     length rest < length s) /\
  (forall depth s ps rest,
     members env f depth s = Decoded (ps, rest) ->
     length rest < length s) /\
  (forall depth s vs rest,
     elements env f depth s = Decoded (vs, rest) ->
     length rest < length s).
Proof.
  induction f as [|f (IHs & IHm & IHe)]; [repeat split; intros; discriminate|].
  repeat split.
  - intros depth s v rest H.
    change (scan_once_body env depth (members env f (pred depth))
              (elements env f (pred depth)) s = Decoded (v, rest)) in H.
    unfold scan_once_body in H.
    destruct s as [|c s']; [discriminate|]. cbn [length].
    destruct (c =? 34)%N.
    { destruct (scanstring s') as [[str r]|] eqn:E; [|discriminate].
      cbn in H. inversion H; subst. apply scanstring_length in E. lia. }
    destruct (c =? 123)%N.
    { destruct depth as [|depth]; [discriminate|].
      pose proof (skip_ws_length s') as Hw.
      destruct (skip_ws s') as [|q s1]; [discriminate|]. cbn [length] in Hw.
      destruct (q =? 125)%N; [inversion H; subst; lia|].
      destruct (q =? 34)%N; [|discriminate].
      destruct (members env f _ s1) as [[ps r]| |] eqn:E; try discriminate.
      cbn in H. inversion H; subst. apply IHm in E. lia. }
    destruct (c =? 91)%N.
    { destruct depth as [|depth]; [discriminate|].
      pose proof (skip_ws_length s') as Hw.
      destruct (skip_ws s') as [|q s1]; [discriminate|]. cbn [length] in Hw.
      destruct (q =? 93)%N; [inversion H; subst; lia|].
      destruct (elements env f _ (q :: s1)) as [[vs r]| |] eqn:E;
        try discriminate.
      cbn in H. inversion H; subst. apply IHe in E. cbn [length] in E. lia. }
    destruct (startswith (c :: s') (lit "null")) eqn:E1; [literal_case H E1 4|].
    destruct (startswith (c :: s') (lit "true")) eqn:E2; [literal_case H E2 4|].
    destruct (startswith (c :: s') (lit "false")) eqn:E3; [literal_case H E3 5|].
    destruct (match_number (c :: s')) as [[[[i fr] e] r]|] eqn:E4.
    { destruct (number_outcome env i fr e); try discriminate.
      cbn in H. inversion H; subst. apply match_number_length in E4.
      cbn [length] in E4. lia. }
    destruct (startswith (c :: s') (lit "NaN")) eqn:E5; [literal_case H E5 3|].
    destruct (startswith (c :: s') (lit "Infinity")) eqn:E6;
      [literal_case H E6 8|].
    destruct (startswith (c :: s') (lit "-Infinity")) eqn:E7;
      [literal_case H E7 9|].
    discriminate.
  - intros depth s ps rest H.
    change (members_body (scan_once env f depth) (members env f depth) s
            = Decoded (ps, rest)) in H.
    unfold members_body in H.
    destruct (scanstring s) as [[key s1]|] eqn:E1; [|discriminate].
    apply scanstring_length in E1. cbn [of_option mbind outcome_bind] in H.
    pose proof (skip_ws_length s1) as Hw1.
    destruct (skip_ws s1) as [|colon s2]; [discriminate|]. cbn [length] in Hw1.
    destruct (colon =? 58)%N; [|discriminate].
    pose proof (skip_ws_length s2) as Hw2.
    destruct (scan_once env f depth (skip_ws s2)) as [[value s3]| |] eqn:E2;
      try discriminate.
    apply IHs in E2. cbn [mbind outcome_bind] in H.
    pose proof (skip_ws_length s3) as Hw3.
    destruct (skip_ws s3) as [|d s4]; [discriminate|]. cbn [length] in Hw3.
    destruct (d =? 125)%N; [inversion H; subst; lia|].
    destruct (d =? 44)%N; [|discriminate].
    pose proof (skip_ws_length s4) as Hw4.
    destruct (skip_ws s4) as [|q s5]; [discriminate|]. cbn [length] in Hw4.
    destruct (q =? 34)%N; [|discriminate].
    destruct (members env f depth s5) as [[ps' r]| |] eqn:E3; try discriminate.
    cbn in H. inversion H; subst. apply IHm in E3. lia.
  - intros depth s vs rest H.
    change (elements_body (scan_once env f depth) (elements env f depth) s
            = Decoded (vs, rest)) in H.
    unfold elements_body in H.
    destruct (scan_once env f depth s) as [[value s1]| |] eqn:E1;
      try discriminate.
    apply IHs in E1. cbn [mbind outcome_bind] in H.
    pose proof (skip_ws_length s1) as Hw1.
    destruct (skip_ws s1) as [|d s2]; [discriminate|]. cbn [length] in Hw1.
    destruct (d =? 93)%N; [inversion H; subst; lia|].
    destruct (d =? 44)%N; [|discriminate].
    pose proof (skip_ws_length s2) as Hw2.
    destruct (elements env f depth (skip_ws s2)) as [[vs' r]| |] eqn:E2;
      try discriminate.
    cbn in H. inversion H; subst. apply IHe in E2. lia.
Qed.

(** Beyond twice the length of the text, more fuel changes nothing. *)
Lemma scan_stable env f :
  (forall depth s, 2 * length s < f ->
     scan_once env (S f) depth s = scan_once env f depth s) /\
  (forall depth s, 2 * length s < f ->
     members env (S f) depth s = members env f depth s) /\
  (forall depth s, 2 * length s + 1 < f ->
     elements env (S f) depth s = elements env f depth s).
Proof.
  induction f as [|f (IHs & IHm & IHe)]; [repeat split; intros; lia|].
  repeat split.
  - intros depth s Hf.
    change (scan_once_body env depth (members env (S f) (pred depth))
              (elements env (S f) (pred depth)) s
            = scan_once_body env depth (members env f (pred depth))
                (elements env f (pred depth)) s).
    unfold scan_once_body.
    destruct s as [|c s']; [reflexivity|]. cbn [length] in Hf.
    destruct (c =? 34)%N; [reflexivity|].
    destruct (c =? 123)%N.
    { destruct depth as [|depth]; [reflexivity|].
      pose proof (skip_ws_length s') as Hw.
      destruct (skip_ws s') as [|q s1]; [reflexivity|]. cbn [length] in Hw.
      destruct (q =? 125)%N; [reflexivity|].
      destruct (q =? 34)%N; [|reflexivity].
      rewrite IHm by lia. reflexivity. }
    destruct (c =? 91)%N; [|reflexivity].
    destruct depth as [|depth]; [reflexivity|].
    pose proof (skip_ws_length s') as Hw.
    destruct (skip_ws s') as [|q s1]; [reflexivity|]. cbn [length] in Hw.
    destruct (q =? 93)%N; [reflexivity|].
    rewrite IHe by (cbn [length]; lia). reflexivity.
  - intros depth s Hf.
    change (members_body (scan_once env (S f) depth)
              (members env (S f) depth) s
            = members_body (scan_once env f depth) (members env f depth) s).
    unfold members_body.
    destruct (scanstring s) as [[key s1]|] eqn:E1; [|reflexivity].
    apply scanstring_length in E1. cbn [of_option mbind outcome_bind].
    pose proof (skip_ws_length s1) as Hw1.
    destruct (skip_ws s1) as [|colon s2]; [reflexivity|]. cbn [length] in Hw1.
    destruct (colon =? 58)%N; [|reflexivity].
    pose proof (skip_ws_length s2) as Hw2.
    rewrite IHs by lia.
    destruct (scan_once env f depth (skip_ws s2)) as [[value s3]| |] eqn:E2;
      try reflexivity.
    apply (proj1 (scan_length env f)) in E2. cbn [mbind outcome_bind].
    pose proof (skip_ws_length s3) as Hw3.
    destruct (skip_ws s3) as [|d s4]; [reflexivity|]. cbn [length] in Hw3.
    destruct (d =? 125)%N; [reflexivity|].
    destruct (d =? 44)%N; [|reflexivity].
    pose proof (skip_ws_length s4) as Hw4.
    destruct (skip_ws s4) as [|q s5]; [reflexivity|]. cbn [length] in Hw4.
    destruct (q =? 34)%N; [|reflexivity].
    rewrite IHm by lia. reflexivity.
  - intros depth s Hf.
    change (elements_body (scan_once env (S f) depth)
              (elements env (S f) depth) s
            = elements_body (scan_once env f depth)
                (elements env f depth) s).
    unfold elements_body.
    rewrite IHs by lia.
    destruct (scan_once env f depth s) as [[value s1]| |] eqn:E1;
      try reflexivity.
    apply (proj1 (scan_length env f)) in E1. cbn [mbind outcome_bind].
    pose proof (skip_ws_length s1) as Hw1.
    destruct (skip_ws s1) as [|d s2]; [reflexivity|]. cbn [length] in Hw1.
    destruct (d =? 93)%N; [reflexivity|].
    destruct (d =? 44)%N; [|reflexivity].
    pose proof (skip_ws_length s2) as Hw2.
    rewrite IHe by lia. reflexivity.
Qed.

(** The fuel [loads] gives the scanner is enough: no larger amount gives
    another result, so [DecodeError] is a decoding error and never a lack
    of fuel. *)
Lemma loads_fuel_enough env depth s fuel :
  2 * length s + 2 <= fuel ->
  scan_once env fuel depth (skip_ws s)
  = scan_once env (2 * length s + 2) depth (skip_ws s).
Proof.
  intros H. induction H as [|fuel H IH]; [reflexivity|].
  rewrite <- IH. apply (proj1 (scan_stable env fuel)).
  pose proof (skip_ws_length s). lia.
Qed.

Lemma number_outcome_raises env i fr ex e :
  number_outcome env i fr ex = Raised e -> scanner_exception e.
Proof.
  unfold number_outcome.
  destruct fr, ex; try discriminate.
  destruct (_ && _); [|discriminate].
  intros [= <-]. right. eauto.
Qed.

Lemma scan_raises env f :
  (forall depth s e,
     scan_once env f depth s = Raised e -> scanner_exception e) /\
  (forall depth s e,
     members env f depth s = Raised e -> scanner_exception e) /\
  (forall depth s e,
     elements env f depth s = Raised e -> scanner_exception e).
Proof.
  induction f as [|f (IHs & IHm & IHe)]; [repeat split; intros; discriminate|].
  repeat split.
  - intros depth s e H.
    change (scan_once_body env depth (members env f (pred depth))
              (elements env f (pred depth)) s = Raised e) in H.
    unfold scan_once_body in H.
    destruct s as [|c s']; [discriminate|].
    destruct (c =? 34)%N.
    { destruct (scanstring s') as [[str r]|]; discriminate. }
    destruct (c =? 123)%N.
    { destruct depth as [|depth]; [inversion H; left; reflexivity|].
      destruct (skip_ws s') as [|q s1]; [discriminate|].
      destruct (q =? 125)%N; [discriminate|].
      destruct (q =? 34)%N; [|discriminate].
      destruct (members env f _ s1) as [[ps r]| |e'] eqn:E; try discriminate.
      cbn in H. inversion H; subst. eapply IHm. exact E. }
    destruct (c =? 91)%N.
    { destruct depth as [|depth]; [inversion H; left; reflexivity|].
      destruct (skip_ws s') as [|q s1]; [discriminate|].
      destruct (q =? 93)%N; [discriminate|].
      destruct (elements env f _ (q :: s1)) as [[vs r]| |e'] eqn:E;
        try discriminate.
      cbn in H. inversion H; subst. eapply IHe. exact E. }
    destruct (startswith (c :: s') (lit "null")); [discriminate|].
    destruct (startswith (c :: s') (lit "true")); [discriminate|].
    destruct (startswith (c :: s') (lit "false")); [discriminate|].
    destruct (match_number (c :: s')) as [[[[i fr] ex] r]|].
    { destruct (number_outcome env i fr ex) eqn:E; try discriminate.
      cbn in H. inversion H; subst. eapply number_outcome_raises. exact E. }
    destruct (startswith (c :: s') (lit "NaN")); [discriminate|].
    destruct (startswith (c :: s') (lit "Infinity")); [discriminate|].
    destruct (startswith (c :: s') (lit "-Infinity")); discriminate.
  - intros depth s e H.
    change (members_body (scan_once env f depth) (members env f depth) s
            = Raised e) in H.
    unfold members_body in H.
    destruct (scanstring s) as [[key s1]|]; [|discriminate].
    cbn [of_option mbind outcome_bind] in H.
    destruct (skip_ws s1) as [|colon s2]; [discriminate|].
    destruct (colon =? 58)%N; [|discriminate].
    destruct (scan_once env f depth (skip_ws s2)) as [[value s3]| |e'] eqn:E2;
      try discriminate.
    + cbn [mbind outcome_bind] in H.
      destruct (skip_ws s3) as [|d s4]; [discriminate|].
      destruct (d =? 125)%N; [discriminate|].
      destruct (d =? 44)%N; [|discriminate].
      destruct (skip_ws s4) as [|q s5]; [discriminate|].
      destruct (q =? 34)%N; [|discriminate].
      destruct (members env f depth s5) as [[ps' r]| |e'] eqn:E3;
        try discriminate.
      cbn in H. inversion H; subst. eapply IHm. exact E3.
    + cbn in H. inversion H; subst. eapply IHs. exact E2.
  - intros depth s e H.
    change (elements_body (scan_once env f depth) (elements env f depth) s
            = Raised e) in H.
    unfold elements_body in H.
    destruct (scan_once env f depth s) as [[value s1]| |e'] eqn:E1;
      try discriminate.
    + cbn [mbind outcome_bind] in H.
      destruct (skip_ws s1) as [|d s2]; [discriminate|].
      destruct (d =? 93)%N; [discriminate|].
      destruct (d =? 44)%N; [|discriminate].
      destruct (elements env f depth (skip_ws s2)) as [[vs' r]| |e'] eqn:E2;
        try discriminate.
      cbn in H. inversion H; subst. eapply IHe. exact E2.
    + cbn in H. inversion H; subst. eapply IHs. exact E1.
Qed.

(** The only exceptions [json.loads] raises besides its decoding error
    are the [RecursionError] and the [ValueError] on too many digits. *)
Lemma loads_raises env s e :
  loads env s = Raised e -> scanner_exception e.
Proof.
  unfold loads.
  destruct (scan_once env _ _ (skip_ws s)) as [[v rest]| |e'] eqn:E;
    cbn [mbind outcome_bind].
  - destruct (skip_ws rest); discriminate.
  - discriminate.
  - intros [= <-]. eapply (proj1 (scan_raises env _)). exact E.
Qed.

End JsonFuel.

(** ** The parser *)

Section ParserFacts.

Lemma remainder_startswith key line :
  startswith line key = true -> remainder key line = Ok (after key line).
Proof.
  intros H. unfold remainder. rewrite (split_once_startswith _ _ H).
  reflexivity.
Qed.

Lemma keyed_not_blank line c key :
  isspace c = false -> startswith line (c :: key) = true ->
  is_empty (strip line) = false.
Proof.
  intros Hc H. pose proof (startswith_not_blank _ _ _ Hc H).
  destruct (strip line); [congruence | reflexivity].
Qed.

Lemma line_kind_of line : line_kind line.
Proof.
  destruct (startswith line (lit "Action:")) eqn:Ha;
    [|destruct (startswith line (lit "Action Input:")) eqn:Hi;
      [|destruct (startswith line (lit "Answer:")) eqn:Hw]].
  - apply is_action; trivial.
    + eapply startswith_exclusive; [| |exact Ha]; reflexivity.
    + eapply startswith_exclusive; [| |exact Ha]; reflexivity.
    + eapply keyed_not_blank; [|exact Ha]; reflexivity.
  - apply is_action_input; trivial.
    + eapply startswith_exclusive; [| |exact Hi]; reflexivity.
    + eapply keyed_not_blank; [|exact Hi]; reflexivity.
  - apply is_answer; trivial.
    eapply keyed_not_blank; [|exact Hw]; reflexivity.
  - apply is_other; trivial.
Qed.

(** What [scan] returns is read off the lines; it raises only what
    [json.loads] raises on an [Action Input:] line. *)
Lemma scan_spec env lines r :
  scan env lines r =
  v ← last_input env (scanned lines) (r_ActionInput r);
  Ok {| r_Thought := r_Thought r;
        r_Action := last_action (scanned lines) (r_Action r);
        r_ActionInput := v;
        r_Answer := match answer_of lines with
                    | Some a => Some a
                    | None => r_Answer r
                    end |}.
Proof.
  revert r. induction lines as [|line lines IH]; intros r.
  - destruct r; reflexivity.
  - unfold last_action.
    cbn [scan scanned answer_of last_input].
    destruct (line_kind_of line) as [Ha Hi Hw Hb|Ha Hi Hw Hb|Ha Hi Hw Hb|Ha Hi Hw];
      rewrite ?Ha, ?Hi, ?Hw, ?Hb; cbn [fold_left last_input];
      rewrite ?Ha, ?Hi, ?Hw.
    + rewrite (remainder_startswith _ _ Ha). cbn [mbind result_bind].
      rewrite IH. reflexivity.
    + rewrite (remainder_startswith _ _ Hi). cbn [mbind result_bind].
      destruct (action_input_value env _); cbn [mbind result_bind];
        [|reflexivity].
      rewrite IH. reflexivity.
    + rewrite (remainder_startswith _ _ Hw). cbn [mbind result_bind].
      reflexivity.
    + destruct (is_empty (strip line)); rewrite IH; reflexivity.
Qed.

Lemma parse_spec env text line0 lines :
  split_lines (strip text) = line0 :: lines ->
  startswith line0 (lit "Thought:") = true ->
  parse env text =
  v ← last_input env (scanned lines) PyNone;
  finish (after (lit "Thought:") line0)
         {| r_Thought := Some (after (lit "Thought:") line0);
            r_Action := last_action (scanned lines) None;
            r_ActionInput := v;
            r_Answer := answer_of lines |}.
Proof.
  intros Hl Ht. unfold parse. rewrite Hl, Ht.
  rewrite (remainder_startswith _ _ Ht). cbn [mbind result_bind].
  rewrite scan_spec. cbn [r_Thought r_Action r_ActionInput r_Answer].
  destruct (last_input env (scanned lines) PyNone); cbn [mbind result_bind];
    [|reflexivity].
  destruct (answer_of lines); reflexivity.
Qed.

(** *** The last [Action:] and [Action Input:] lines *)

Lemma last_action_app l1 l2 init :
  last_action (l1 ++ l2) init = last_action l2 (last_action l1 init).
Proof. apply fold_left_app. Qed.

Lemma last_input_app env l1 l2 init :
  last_input env (l1 ++ l2) init =
  v ← last_input env l1 init; last_input env l2 v.
Proof.
  revert init. induction l1 as [|l l1 IH]; intros init;
    cbn [app last_input]; [reflexivity|].
  destruct (startswith l (lit "Action Input:")); [|apply IH].
  destruct (action_input_value env _); cbn [mbind result_bind];
    [apply IH | reflexivity].
Qed.

Lemma last_action_none lines init :
  Forall (fun l => startswith l (lit "Action:") = false) lines ->
  last_action lines init = init.
Proof.
  intros H. revert init. induction H as [|l ls Hl _ IH]; intros init.
  - reflexivity.
  - unfold last_action in *. cbn [fold_left]. rewrite Hl. apply IH.
Qed.

Lemma last_input_none env lines init :
  Forall (fun l => startswith l (lit "Action Input:") = false) lines ->
  last_input env lines init = Ok init.
Proof.
  intros H. revert init. induction H as [|l ls Hl _ IH]; intros init.
  - reflexivity.
  - cbn [last_input]. rewrite Hl. apply IH.
Qed.

(** Lines on which [json.loads] does not raise are gone through. *)
Lemma last_input_total env lines init :
  Forall (fun l => ~ input_raises env l) lines ->
  exists v, last_input env lines init = Ok v.
Proof.
  intros H. revert init. induction H as [|l ls Hl _ IH]; intros init;
    cbn [last_input]; [eauto|].
  destruct (startswith l (lit "Action Input:")) eqn:Hi; [|apply IH].
  unfold action_input_value.
  destruct (Json.loads env _) as [v| |e] eqn:E; cbn [mbind result_bind];
    [apply IH | apply IH |].
  exfalso. apply Hl. split; [exact Hi | eauto].
Qed.

Lemma last_action_is_set lines init :
  is_set init = true -> is_set (last_action lines init) = true.
Proof.
  revert init. induction lines as [|l ls IH]; intros init H; [exact H|].
  unfold last_action in *. cbn [fold_left].
  destruct (startswith l (lit "Action:")); apply IH; [reflexivity|exact H].
Qed.

Lemma last_action_exists lines init :
  Exists (fun l => startswith l (lit "Action:") = true) lines ->
  is_set (last_action lines init) = true.
Proof.
  intros H. revert init. induction H as [l ls Hl|l ls _ IH]; intros init.
  - unfold last_action. cbn [fold_left]. rewrite Hl.
    apply (last_action_is_set ls (Some _)). reflexivity.
  - unfold last_action in *. cbn [fold_left]. apply IH.
Qed.

(** The last [Action:] line of [pre ++ act :: post] is [act] when no
    line of [post] is one. *)
Lemma last_action_last pre act post init :
  startswith act (lit "Action:") = true ->
  Forall (fun l => startswith l (lit "Action:") = false) post ->
  last_action (pre ++ act :: post) init = Some (after (lit "Action:") act).
Proof.
  intros Ha Hp. rewrite last_action_app.
  change (act :: post) with ([act] ++ post). rewrite last_action_app.
  rewrite (last_action_none post) by exact Hp.
  unfold last_action. cbn [fold_left]. rewrite Ha. reflexivity.
Qed.

Lemma last_input_last env pre inp post init :
  Forall (fun l => ~ input_raises env l) pre ->
  startswith inp (lit "Action Input:") = true ->
  Forall (fun l => startswith l (lit "Action Input:") = false) post ->
  last_input env (pre ++ inp :: post) init =
  action_input_value env (after (lit "Action Input:") inp).
Proof.
  intros Hpre Hi Hp. rewrite last_input_app.
  destruct (last_input_total env pre init Hpre) as [v ->].
  cbn [mbind result_bind last_input]. rewrite Hi.
  destruct (action_input_value env _); cbn [mbind result_bind];
    [apply last_input_none; exact Hp | reflexivity].
Qed.

(** What the loop over the [Action Input:] lines can raise. *)
Lemma last_input_raises env lines init e :
  last_input env lines init = Raise e -> Json.scanner_exception e.
Proof.
  revert init. induction lines as [|l ls IH]; intros init;
    cbn [last_input]; [discriminate|].
  destruct (startswith l (lit "Action Input:")); [|apply IH].
  unfold action_input_value.
  destruct (Json.loads env _) as [v| |e'] eqn:E; cbn [mbind result_bind];
    [apply IH | apply IH |].
  intros [= <-]. eapply loads_raises. exact E.
Qed.

(** *** Lines before and after the first [Answer:] line *)

Lemma scanned_app_answer pre ans post :
  Forall (fun l => startswith l (lit "Answer:") = false) pre ->
  startswith ans (lit "Answer:") = true ->
  scanned (pre ++ ans :: post) = pre.
Proof.
  intros H Ha. induction H as [|l ls Hl _ IH]; cbn [app scanned].
  - rewrite Ha. reflexivity.
  - rewrite Hl, IH. reflexivity.
Qed.

Lemma answer_of_app_answer pre ans post :
  Forall (fun l => startswith l (lit "Answer:") = false) pre ->
  startswith ans (lit "Answer:") = true ->
  answer_of (pre ++ ans :: post) =
  Some (after (lit "Answer:") ans ++ [nl] ++ join [nl] post).
Proof.
  intros H Ha. induction H as [|l ls Hl _ IH]; cbn [app answer_of].
  - rewrite Ha. reflexivity.
  - rewrite Hl, IH. reflexivity.
Qed.

(** *** The first line of the trimmed text *)

Lemma split_lines_not_nil s : split_lines s <> [].
Proof.
  destruct s as [|c s]; cbn [split_lines]; [discriminate|].
  destruct (c =? nl); [discriminate|].
  destruct (split_lines s); discriminate.
Qed.

Lemma startswith_rstrip s key :
  Forall (fun c => isspace c = false) key ->
  startswith (rstrip s) key = startswith s key.
Proof.
  intros Hk. revert s. induction Hk as [|a key Ha _ IH]; intros s.
  - reflexivity.
  - destruct s as [|c s]; [reflexivity|].
    cbn [rstrip]. specialize (IH s).
    destruct (rstrip s) as [|r0 r] eqn:E.
    + destruct (isspace c) eqn:Hc; cbn [startswith].
      * destruct (N.eqb_spec a c) as [->|_]; [congruence|reflexivity].
      * rewrite <- IH. reflexivity.
    + cbn [startswith]. rewrite <- IH. reflexivity.
Qed.

Lemma startswith_first_line s key :
  Forall (fun c => isspace c = false) key ->
  startswith (hd [] (split_lines s)) key = startswith s key.
Proof.
  intros Hk. revert s. induction Hk as [|a key Ha _ IH]; intros s.
  - reflexivity.
  - destruct s as [|c s]; [reflexivity|].
    cbn [split_lines]. specialize (IH s).
    destruct (N.eqb_spec c nl) as [->|Hc].
    + cbn [hd startswith].
      destruct (N.eqb_spec a nl) as [->|_]; [discriminate Ha|reflexivity].
    + pose proof (split_lines_not_nil s) as Hn.
      destruct (split_lines s) as [|h t]; [congruence|].
      cbn [hd startswith] in *. rewrite IH. reflexivity.
Qed.

(** [lines[0].startswith("Thought:")] looks at the text after its leading
    whitespace. *)
Lemma first_line_thought text :
  startswith (hd [] (split_lines (strip text))) (lit "Thought:") =
  startswith (lstrip text) (lit "Thought:").
Proof.
  assert (Hk : Forall (fun c => isspace c = false) (lit "Thought:"))
    by (vm_compute; repeat constructor).
  rewrite (startswith_first_line _ _ Hk). unfold strip.
  apply startswith_rstrip. exact Hk.
Qed.

End ParserFacts.

(** ** Claims about the parser *)

Section ParserClaims.

Local Abbreviation no_key key :=
  (fun l : pystr => startswith l (lit key) = false).
Local Abbreviation has_key key :=
  (fun l : pystr => startswith l (lit key) = true).
Local Abbreviation quiet env :=
  (fun l : pystr => ~ input_raises env l).

(** Lines of a concrete text on which [json.loads] does not raise. *)
Local Ltac quiet_lines :=
  repeat constructor;
  let Hk := fresh in let e := fresh in let He := fresh in
  intros [Hk [e He]];
  first [ vm_compute in Hk; discriminate Hk
        | vm_compute in He; discriminate He ].

(** C1 (as amended).  When the first line of the trimmed text starts with
    [Thought:], [json.loads] decodes the remainder of the last
    [Action Input:] line before any [Answer:] line to an object, and it
    raises neither [RecursionError] nor the [ValueError] of the digit
    limit on an [Action Input:] line before that one, parsing does not
    raise and the decision carries the decoded mapping. *)
Theorem action_input_object_is_carried env text line0 lines pre inp post d :
  split_lines (strip text) = line0 :: lines ->
  startswith line0 (lit "Thought:") = true ->
  scanned lines = pre ++ inp :: post ->
  Forall (quiet env) pre ->
  startswith inp (lit "Action Input:") = true ->
  Forall (no_key "Action Input:") post ->
  Json.loads env (after (lit "Action Input:") inp) = Json.Decoded (PyDict d) ->
  exists response,
    parse env text = Ok response /\ ActionInput response = Some d.
Proof.
  intros Hl Ht Hs Hq Hi Hp Hj.
  rewrite (parse_spec _ _ _ _ Hl Ht), Hs,
    (last_input_last _ _ _ _ _ Hq Hi Hp).
  unfold action_input_value. rewrite Hj. cbn [mbind result_bind].
  unfold finish. cbn [r_ActionInput is_None]. rewrite andb_false_r.
  match goal with |- context [validate _ ?r] => set (r' := r) end.
  assert (Hr : r_ActionInput r' = PyDict d).
  { subst r'. cbn [r_Action r_Answer].
    destruct (_ && _); reflexivity. }
  unfold validate. rewrite Hr. eexists. split; reflexivity.
Qed.

Lemma action_input_object_is_carried_witness :
  exists response,
    parse Json.common_env
      (unlines ["Thought: t"; "Action Input: [1]"; "Action: search";
                "Action Input: {}"])
    = Ok response /\ ActionInput response = Some [].
Proof.
  apply (action_input_object_is_carried Json.common_env
           (unlines ["Thought: t"; "Action Input: [1]"; "Action: search";
                     "Action Input: {}"])
           (lit "Thought: t")
           [lit "Action Input: [1]"; lit "Action: search";
            lit "Action Input: {}"]
           [lit "Action Input: [1]"; lit "Action: search"]
           (lit "Action Input: {}") [] []);
    try reflexivity.
  - quiet_lines.
  - constructor.
Defined.

(** C1 fails as stated: the remainder [5] is valid JSON, and parsing
    raises on account of it instead of passing the number through. *)
Lemma action_input_number_raises :
  let text := unlines ["Thought: t"; "Action Input: 5"] in
  Json.loads Json.common_env (lit "5") = Json.Decoded (PyInt 5) /\
  parse Json.common_env text = Raise (ValidationError (lit "ActionInput")).
Proof. split; reflexivity. Qed.

(** C2 (as amended).  When the first line of the trimmed text starts with
    [Thought:], and the lines before any [Answer:] line hold at least one
    [Action:] line and no [Action Input:] line, parsing raises a
    [ValueError] with the message "Action specified without Action
    Input", whether or not an [Answer:] line follows. *)
Theorem action_without_input_raises_ValueError env text line0 lines :
  split_lines (strip text) = line0 :: lines ->
  startswith line0 (lit "Thought:") = true ->
  Exists (has_key "Action:") (scanned lines) ->
  Forall (no_key "Action Input:") (scanned lines) ->
  parse env text =
  Raise (ValueError (lit "Action specified without Action Input")).
Proof.
  intros Hl Ht Ha Hi.
  rewrite (parse_spec _ _ _ _ Hl Ht), (last_input_none _ _ _ Hi).
  cbn [mbind result_bind].
  unfold finish. cbn [r_Action r_ActionInput].
  rewrite (last_action_exists _ None Ha).
  reflexivity.
Qed.

Lemma action_without_input_raises_ValueError_witness :
  parse Json.common_env
    (unlines ["Thought: t"; "Action: search"; "Answer: 42"]) =
  Raise (ValueError (lit "Action specified without Action Input")).
Proof.
  apply (action_without_input_raises_ValueError Json.common_env _
           (lit "Thought: t") [lit "Action: search"; lit "Answer: 42"]);
    try reflexivity.
  - apply Exists_cons_hd. reflexivity.
  - repeat constructor.
Defined.

(** C2 fails as stated: the exception raised is a [ValueError], not a
    [FormatException]. *)
Lemma action_without_input_not_FormatException :
  let text := unlines ["Thought: t"; "Action: search"; "Answer: 42"] in
  parse Json.common_env text =
    Raise (ValueError (lit "Action specified without Action Input")) /\
  parse Json.common_env text <> Raise FormatException.
Proof. split; [reflexivity | discriminate]. Qed.

(** C5 (as amended).  Take the lines of the text with its leading and
    trailing whitespace removed.  When the first of them starts with
    [Thought:], no [Action:] line comes before the first [Answer:] line,
    and the [Action Input:] lines before it, if any, are gone through
    without an exception and leave [None] or an object, the answer is
    the trimmed remainder of the [Answer:] line, then a newline, then
    all the lines after it joined by newlines as they are; the lines
    after it are not interpreted. *)
Theorem answer_is_remainder_newline_rest env text line0 pre ans post v :
  split_lines (strip text) = line0 :: pre ++ ans :: post ->
  startswith line0 (lit "Thought:") = true ->
  Forall (no_key "Answer:") pre ->
  Forall (no_key "Action:") pre ->
  last_input env pre PyNone = Ok v ->
  v = PyNone \/ (exists d, v = PyDict d) ->
  startswith ans (lit "Answer:") = true ->
  parse_for_result env text =
  Ok (Some (after (lit "Answer:") ans ++ [nl] ++ join [nl] post)).
Proof.
  intros Hl Ht Hw Ha Hi Hv Hans.
  unfold parse_for_result. rewrite (parse_spec _ _ _ _ Hl Ht).
  rewrite (scanned_app_answer _ _ _ Hw Hans).
  rewrite (answer_of_app_answer _ _ _ Hw Hans).
  rewrite (last_action_none _ _ Ha), Hi.
  destruct Hv as [->|[d ->]]; reflexivity.
Qed.

Lemma answer_is_remainder_newline_rest_witness :
  parse_for_result Json.common_env
    (unlines ["Thought: done"; "Action Input: {}"; "Answer: Paris";
              "Action: x"; "  end"]) =
  Ok (Some (unlines ["Paris"; "Action: x"; "  end"])).
Proof.
  apply (answer_is_remainder_newline_rest Json.common_env _
           (lit "Thought: done") [lit "Action Input: {}"]
           (lit "Answer: Paris") [lit "Action: x"; lit "  end"]
           (PyDict []));
    try reflexivity; try (repeat constructor; fail).
  right. exists []. reflexivity.
Defined.

(** C5 fails as stated: the answer parsed from the text of scenario B
    ends with a newline. *)
Lemma capital_answer_has_newline :
  let text := unlines ["Thought: done"; "Answer: The capital is Paris"] in
  parse_for_result Json.common_env text
    = Ok (Some (lit "The capital is Paris" ++ [nl])) /\
  parse_for_result Json.common_env text
    <> Ok (Some (lit "The capital is Paris")).
Proof. split; [reflexivity | discriminate]. Qed.

(** The condition of the amended C5 on the [Action Input:] lines is
    needed: without it no answer is returned. *)
Lemma answer_needs_valid_input env text line0 pre ans post a :
  split_lines (strip text) = line0 :: pre ++ ans :: post ->
  startswith line0 (lit "Thought:") = true ->
  Forall (no_key "Answer:") pre ->
  startswith ans (lit "Answer:") = true ->
  parse_for_result env text = Ok a ->
  exists v, last_input env pre PyNone = Ok v /\
            (v = PyNone \/ exists d, v = PyDict d).
Proof.
  intros Hl Ht Hw Hans H.
  unfold parse_for_result in H. rewrite (parse_spec _ _ _ _ Hl Ht) in H.
  rewrite (scanned_app_answer _ _ _ Hw Hans) in H.
  destruct (last_input env pre PyNone) as [v|e];
    cbn [mbind result_bind] in H; [|discriminate].
  exists v. split; [reflexivity|].
  unfold finish, validate in H.
  destruct (is_set _ && is_None _); [discriminate|].
  destruct (is_set _ && negb _); cbn [r_ActionInput set_Answer] in H;
    destruct v; try discriminate; eauto.
Qed.

(** The lines after the [Answer:] line are those of the trimmed text:
    spaces and blank lines that end the text are not in the answer. *)
Example trailing_whitespace_is_dropped :
  parse_for_result Json.common_env
    (lit "Thought: t" ++ [nl] ++ lit "Answer: a" ++ [nl] ++ lit "b  "
     ++ [nl; nl])
  = Ok (Some (lit "a" ++ [nl] ++ lit "b")).
Proof. reflexivity. Qed.

(** An [Action Input:] line before the [Answer:] line that holds
    something else than [null] or an object makes the validation of the
    response fail. *)
Example answer_after_number_input_raises :
  parse_for_result Json.common_env
    (unlines ["Thought: t"; "Action Input: 5"; "Answer: a"])
  = Raise (ValidationError (lit "ActionInput")).
Proof. reflexivity. Qed.

(** C8 (as amended).  When the text, after its leading whitespace, does
    not start with [Thought:] (the empty text and blank texts included),
    parsing raises [FormatException], whatever follows. *)
Theorem no_leading_thought_raises env text :
  startswith (lstrip text) (lit "Thought:") = false ->
  parse env text = Raise FormatException.
Proof.
  intros H. rewrite <- first_line_thought in H. unfold parse.
  destruct (split_lines (strip text)) as [|line0 lines]; [reflexivity|].
  cbn [hd] in H. rewrite H. reflexivity.
Qed.

Lemma no_leading_thought_raises_witness :
  parse Json.common_env
    (unlines ["Action: search"; "Thought: late"; "Answer: 1"]) =
  Raise FormatException.
Proof. apply no_leading_thought_raises. reflexivity. Defined.

(** C8 fails as stated: the first non-empty line of this text is indented
    and so does not start with [Thought:], yet parsing succeeds. *)
Lemma indented_thought_parses :
  let text := lit " Thought: x" in
  first_nonempty_line text = Some text /\
  startswith text (lit "Thought:") = false /\
  parse Json.common_env text
    = Ok {| Thought := lit "x"; Action := None;
            ActionInput := None; Answer := None |}.
Proof. repeat split; reflexivity. Qed.

(** C10 (as amended).  When the first line of the trimmed text starts
    with [Thought:], the last [Action:] line before any [Answer:] line
    has an empty remainder after trimming, [json.loads] decodes the
    remainder of the last [Action Input:] line before any [Answer:] line
    to an object, and it raises neither [RecursionError] nor the
    [ValueError] of the digit limit on an [Action Input:] line before
    that one, [parse_for_tool_calls] returns the empty list. *)
Theorem empty_action_no_tool_call
    env text line0 lines pre act post pre' inp post' d :
  split_lines (strip text) = line0 :: lines ->
  startswith line0 (lit "Thought:") = true ->
  scanned lines = pre ++ act :: post ->
  startswith act (lit "Action:") = true ->
  Forall (no_key "Action:") post ->
  after (lit "Action:") act = [] ->
  scanned lines = pre' ++ inp :: post' ->
  Forall (quiet env) pre' ->
  startswith inp (lit "Action Input:") = true ->
  Forall (no_key "Action Input:") post' ->
  Json.loads env (after (lit "Action Input:") inp) = Json.Decoded (PyDict d) ->
  parse_for_tool_calls env text = Ok [].
Proof.
  intros Hl Ht Hs Ha Hp He Hs' Hq Hi Hp' Hj.
  assert (Hact : last_action (scanned lines) None = Some []).
  { rewrite Hs, (last_action_last _ _ _ _ Ha Hp), He. reflexivity. }
  assert (Hin : last_input env (scanned lines) PyNone = Ok (PyDict d)).
  { rewrite Hs', (last_input_last _ _ _ _ _ Hq Hi Hp').
    unfold action_input_value. rewrite Hj. reflexivity. }
  unfold parse_for_tool_calls.
  rewrite (parse_spec _ _ _ _ Hl Ht), Hin, Hact. cbn [mbind result_bind].
  unfold finish. cbn [r_Action r_ActionInput r_Answer is_set is_None andb].
  destruct (negb _); reflexivity.
Qed.

Lemma empty_action_no_tool_call_witness :
  parse_for_tool_calls Json.common_env
    (unlines ["Thought: t"; "Action:   "; "Action Input: {}"]) = Ok [].
Proof.
  apply (empty_action_no_tool_call Json.common_env _ (lit "Thought: t")
           [lit "Action:   "; lit "Action Input: {}"]
           [] (lit "Action:   ") [lit "Action Input: {}"]
           [lit "Action:   "] (lit "Action Input: {}") [] []);
    try reflexivity; try (repeat constructor; fail).
  quiet_lines.
Defined.

(** C10 fails as stated: with an [Action Input:] line that holds [null],
    the empty action does not pass validation. *)
Lemma empty_action_null_input_raises :
  let text := unlines ["Thought: t"; "Action:"; "Action Input: null"] in
  parse_for_tool_calls Json.common_env text =
  Raise (ValueError (lit "Action specified without Action Input")).
Proof. reflexivity. Qed.

(** The converse of the amended C8: a text that starts with [Thought:]
    after its leading whitespace never raises [FormatException]. *)
Lemma leading_thought_not_FormatException env text :
  startswith (lstrip text) (lit "Thought:") = true ->
  parse env text <> Raise FormatException.
Proof.
  intros H. rewrite <- first_line_thought in H.
  pose proof (split_lines_not_nil (strip text)) as Hn.
  destruct (split_lines (strip text)) as [|line0 lines] eqn:Hl; [congruence|].
  cbn [hd] in H. rewrite (parse_spec _ _ _ _ Hl H).
  destruct (last_input env (scanned lines) PyNone) as [v|e] eqn:E;
    cbn [mbind result_bind].
  - unfold finish, validate.
    destruct (is_set _ && is_None _); [discriminate|].
    destruct (is_set _ && negb _); cbn [r_ActionInput set_Answer];
      destruct v; discriminate.
  - apply last_input_raises in E as [->|(limit & digits & ->)];
      discriminate.
Qed.

(** Scenario A of the spec: a tool call with a JSON object. *)
Example scenario_A :
  parse_for_tool_calls Json.common_env
    (lit "Thought: checking" ++ [nl] ++ lit "Action: search" ++ [nl]
     ++ lit "Action Input: {" ++ [dquote] ++ lit "q" ++ [dquote] ++ lit ": "
     ++ [dquote] ++ lit "cats" ++ [dquote] ++ lit "}")
  = Ok [(lit "search", Some [(lit "q", PyStr (lit "cats"))])].
Proof. reflexivity. Qed.

(** Scenario C of the spec: a thought alone. *)
Example scenario_C :
  parse Json.common_env (lit "Thought: only thinking")
  = Ok {| Thought := lit "only thinking"; Action := None;
          ActionInput := None; Answer := None |}.
Proof. reflexivity. Qed.

(** The raw string kept for an invalid JSON remainder does not pass the
    validation of the response model either. *)
Example raw_string_input_raises :
  Json.loads Json.common_env (lit "cats") = Json.DecodeError /\
  parse Json.common_env
    (unlines ["Thought: t"; "Action: search"; "Action Input: cats"])
  = Raise (ValidationError (lit "ActionInput")).
Proof. split; reflexivity. Qed.

(** An object nested deeper than the recursion limit allows: [json.loads]
    raises [RecursionError], which [__parse] does not catch. *)
Example deep_object_raises_RecursionError :
  let opening := lit "{" ++ [dquote] ++ lit "a" ++ [dquote] ++ lit ":" in
  let closing := lit "}" in
  let doc n := concat (repeat opening n) ++ lit "1"
               ++ concat (repeat closing n) in
  Json.loads Json.common_env (doc 900%nat)
    <> Json.Raised RecursionError /\
  Json.loads Json.common_env (doc 901%nat) = Json.Raised RecursionError /\
  parse Json.common_env
    (lit "Thought: t" ++ [nl] ++ lit "Action: search" ++ [nl]
     ++ lit "Action Input: " ++ doc 901%nat)
  = Raise RecursionError.
Proof.
  cbv zeta. repeat split; [|vm_compute; reflexivity..].
  vm_compute. discriminate.
Qed.

(** An object that holds an integer of more digits than the limit:
    [json.loads] raises [ValueError], which [__parse] does not catch. *)
Example long_integer_raises_ValueError :
  let doc n := lit "{" ++ [dquote] ++ lit "a" ++ [dquote] ++ lit ": "
               ++ repeat 49 n ++ lit "}" in
  (exists d, Json.loads Json.common_env (doc 4300%nat)
             = Json.Decoded (PyDict d)) /\
  Json.loads Json.common_env (doc 4301%nat)
    = Json.Raised (ValueError (Json.digits_limit_message 4300 4301)) /\
  parse Json.common_env
    (lit "Thought: t" ++ [nl] ++ lit "Action: search" ++ [nl]
     ++ lit "Action Input: " ++ doc 4301%nat)
  = Raise (ValueError (Json.digits_limit_message 4300 4301)).
Proof.
  cbv zeta. repeat split; [|vm_compute; reflexivity..].
  eexists. vm_compute. reflexivity.
Qed.

End ParserClaims.

(** ** Claims about the tool-result messages *)

Section PromptClaims.






End PromptClaims.

(** ** Claims about the Retry wrapper *)

Local Close Scope N_scope.

Section RetryClaims.
Import ToolModel.

Context {exn cls : Type} (isinstance : exn -> cls -> bool) (Exception : cls).

(** C6 (as amended).  Constructing the wrapper without a name and without
    a description gives a tool whose arguments and description are the
    base tool's, and whose name is the base tool's name followed by
    [::retry_] and [max_retries] in decimal. *)
Theorem init_default_attrs
    tool max_retries (exceptions : Retry.exceptions_arg cls) delay
    name description :
  Retry.falsy name = true ->
  Retry.falsy description = true ->
  let self := Retry.init Exception tool max_retries exceptions delay
                name description in
  ToolModel.name (Retry.tool_attrs self) =
    ToolModel.name tool ++ lit "::retry_" ++ str_of_int max_retries /\
  args (Retry.tool_attrs self) = args tool /\
  ToolModel.description (Retry.tool_attrs self) =
    ToolModel.description tool.
Proof.
  intros Hn Hd. unfold Retry.init. cbn. rewrite Hn, Hd. auto.
Qed.

Context {W Ret : Type} (invoke : W -> (Ret + exn) * W).

Local Abbreviation caught self :=
  (fun e : exn => Retry.catches isinstance (Retry._exceptions self) e = true).

(** The loop always ends within the fuel [retry_invoke] gives it. *)
Lemma retry_loop_total self fuel attempts last st :
  Z.to_nat (Retry._max_retries self + 1 - attempts) < fuel ->
  is_Some (Retry.retry_loop isinstance invoke self fuel attempts last st).
Proof.
  revert attempts last st.
  induction fuel as [|fuel IH]; intros attempts last st Hf; [lia|].
  cbn [Retry.retry_loop].
  destruct (Z.leb_spec attempts (Retry._max_retries self)); [|eauto].
  destruct (invoke (Retry.world st)) as [[r|e] w]; [eauto|].
  destruct (Retry.catches _ _ e); [|eauto].
  destruct (Z.leb_spec (attempts + 1) (Retry._max_retries self)); [|eauto].
  apply IH. lia.
Qed.

Lemma retry_invoke_total self w :
  is_Some (Retry.retry_invoke isinstance invoke self w).
Proof. apply retry_loop_total. lia. Qed.

Lemma world_sleep delay (st : Retry.Run W) :
  Retry.world (Retry.sleep delay st) = Retry.world st.
Proof. unfold Retry.sleep. destruct (0 <? delay)%Z; reflexivity. Qed.

Lemma calls_sleep delay (st : Retry.Run W) :
  Retry.calls (Retry.sleep delay st) = Retry.calls st.
Proof. unfold Retry.sleep. destruct (0 <? delay)%Z; reflexivity. Qed.

(** Enough budget: the loop goes through all the failures and returns. *)
Lemma retry_loop_succeeds self w es r w' :
  Retry.fails_then_succeeds invoke w es r w' ->
  Forall (caught self) es ->
  forall fuel attempts last st,
    Retry.world st = w ->
    (attempts + Z.of_nat (length es) <= Retry._max_retries self)%Z ->
    length es < fuel ->
    exists st',
      Retry.retry_loop isinstance invoke self fuel attempts last st
      = Some (Retry.Returned r, st') /\
      Retry.calls st' = Retry.calls st + length es + 1 /\
      Retry.world st' = w'.
Proof.
  induction 1 as [w r w' Hinv|w e w1 es r w' Hinv _ IH];
    intros Hc fuel attempts last st Hw Hb Hf;
    (destruct fuel as [|fuel]; [cbn [length] in Hf; lia|]);
    cbn [Retry.retry_loop length] in *.
  - destruct (Z.leb_spec attempts (Retry._max_retries self)); [|lia].
    rewrite Hw, Hinv. eexists. split; [reflexivity|]. cbn. split; [lia|auto].
  - inversion Hc as [|? ? He Hes]; subst.
    destruct (Z.leb_spec attempts (Retry._max_retries self)); [|lia].
    rewrite Hinv, He.
    destruct (Z.leb_spec (attempts + 1) (Retry._max_retries self)); [|lia].
    edestruct (IH Hes fuel (attempts + 1)%Z (Some e)) as (st' & Hr & Hcalls & Hw');
      [| | |rewrite Hr; eexists; split; [reflexivity|split; [|exact Hw']]].
    + rewrite world_sleep. reflexivity.
    + lia.
    + lia.
    + rewrite Hcalls, calls_sleep. cbn. lia.
Qed.

(** Too little budget: the loop stops at failure number
    [max_retries - attempts + 1] and raises it. *)
Lemma retry_loop_exhausts self w es r w' :
  Retry.fails_then_succeeds invoke w es r w' ->
  Forall (caught self) es ->
  forall fuel attempts last st,
    Retry.world st = w ->
    (attempts <= Retry._max_retries self)%Z ->
    (Retry._max_retries self - attempts < Z.of_nat (length es))%Z ->
    Z.to_nat (Retry._max_retries self - attempts) < fuel ->
    exists e st',
      es !! Z.to_nat (Retry._max_retries self - attempts) = Some e /\
      Retry.retry_loop isinstance invoke self fuel attempts last st
      = Some (Retry.Raised e, st') /\
      Retry.calls st' =
        Retry.calls st + Z.to_nat (Retry._max_retries self - attempts) + 1.
Proof.
  induction 1 as [w r w' Hinv|w e w1 es r w' Hinv _ IH];
    intros Hc fuel attempts last st Hw Ha Hb Hf;
    cbn [length] in *; [lia|].
  destruct fuel as [|fuel]; [lia|]. cbn [Retry.retry_loop].
  inversion Hc as [|? ? He Hes]; subst.
  destruct (Z.leb_spec attempts (Retry._max_retries self)); [|lia].
  rewrite Hinv, He.
  destruct (Z.leb_spec (attempts + 1) (Retry._max_retries self)) as [Hle|Hgt].
  - edestruct (IH Hes fuel (attempts + 1)%Z (Some e)) as (e' & st' & Hl & Hr & Hcalls);
      [| | | |exists e', st'; repeat split; [|exact Hr|]].
    + rewrite world_sleep. reflexivity.
    + lia.
    + lia.
    + lia.
    + replace (Z.to_nat (Retry._max_retries self - attempts))
        with (S (Z.to_nat (Retry._max_retries self - (attempts + 1))))
        by lia.
      exact Hl.
    + rewrite Hcalls, calls_sleep. cbn. lia.
  - exists e. eexists. replace (Retry._max_retries self - attempts)%Z
      with 0%Z by lia.
    repeat split. cbn. lia.
Qed.

(** C4.  Let the base tool fail [k] times with caught exceptions [es] and
    then succeed.  With [max_retries >= k] the wrapped invocation makes
    exactly [k + 1] calls of the base tool and returns its result; with
    [0 <= max_retries < k] it makes exactly [max_retries + 1] calls and
    raises the exception of call number [max_retries + 1], the last one
    encountered. *)
Theorem retry_fails_k_then_succeeds self w es r w' :
  Retry.fails_then_succeeds invoke w es r w' ->
  Forall (caught self) es ->
  ((Z.of_nat (length es) <= Retry._max_retries self)%Z ->
   exists st,
     Retry.retry_invoke isinstance invoke self w
     = Some (Retry.Returned r, st) /\
     Retry.calls st = length es + 1 /\ Retry.world st = w') /\
  ((0 <= Retry._max_retries self < Z.of_nat (length es))%Z ->
   exists e st,
     es !! Z.to_nat (Retry._max_retries self) = Some e /\
     Retry.retry_invoke isinstance invoke self w
     = Some (Retry.Raised e, st) /\
     Retry.calls st = Z.to_nat (Retry._max_retries self) + 1).
Proof.
  intros Hb Hc. split; intros Hk; unfold Retry.retry_invoke.
  - edestruct (retry_loop_succeeds self w es r w' Hb Hc
                 (S (Z.to_nat (Retry._max_retries self + 1))) 0%Z None
                 (Retry.start w)) as (st & Hr & Hcalls & Hw);
      [reflexivity|lia|lia|].
    exists st. repeat split; [exact Hr|exact Hcalls|exact Hw].
  - edestruct (retry_loop_exhausts self w es r w' Hb Hc
                 (S (Z.to_nat (Retry._max_retries self + 1))) 0%Z None
                 (Retry.start w)) as (e & st & Hl & Hr & Hcalls);
      [reflexivity|lia|lia|lia|].
    rewrite Z.sub_0_r in Hl, Hcalls.
    exists e, st. repeat split; [exact Hl|exact Hr|exact Hcalls].
Qed.

(** With a negative [max_retries] the loop body never runs and
    [raise last_exception] finds [None]. *)
Lemma retry_negative_budget self w :
  (Retry._max_retries self < 0)%Z ->
  Retry.retry_invoke isinstance invoke self w
  = Some (Retry.TypeError, Retry.start w).
Proof.
  intros H. unfold Retry.retry_invoke. cbn [Retry.retry_loop].
  destruct (Z.leb_spec 0 (Retry._max_retries self)); [lia|reflexivity].
Qed.

(** An exception that is not caught ends the loop at once. *)
Lemma retry_loop_unmatched self w es e w' :
  Retry.fails_then_raises invoke w es e w' ->
  Forall (caught self) es ->
  Retry.catches isinstance (Retry._exceptions self) e = false ->
  forall fuel attempts last st,
    Retry.world st = w ->
    (attempts + Z.of_nat (length es) <= Retry._max_retries self)%Z ->
    length es < fuel ->
    exists st',
      Retry.retry_loop isinstance invoke self fuel attempts last st
      = Some (Retry.Raised e, st') /\
      Retry.calls st' = Retry.calls st + length es + 1 /\
      Retry.world st' = w'.
Proof.
  induction 1 as [w e w' Hinv|w e0 w1 es e w' Hinv _ IH];
    intros Hc Hu fuel attempts last st Hw Hb Hf;
    (destruct fuel as [|fuel]; [cbn [length] in Hf; lia|]);
    cbn [Retry.retry_loop length] in *.
  - destruct (Z.leb_spec attempts (Retry._max_retries self)); [|lia].
    rewrite Hw, Hinv, Hu.
    eexists. split; [reflexivity|]. cbn. split; [lia|auto].
  - inversion Hc as [|? ? He Hes]; subst.
    destruct (Z.leb_spec attempts (Retry._max_retries self)); [|lia].
    rewrite Hinv, He.
    destruct (Z.leb_spec (attempts + 1) (Retry._max_retries self)); [|lia].
    edestruct (IH Hes Hu fuel (attempts + 1)%Z (Some e0)) as (st' & Hr & Hcalls & Hw');
      [| | |rewrite Hr; eexists; split; [reflexivity|split; [|exact Hw']]].
    + rewrite world_sleep. reflexivity.
    + lia.
    + lia.
    + rewrite Hcalls, calls_sleep. cbn. lia.
Qed.

(** C7.  Whatever classes the wrapper catches: when a call of the base
    tool raises an exception that is an instance of none of them, the
    wrapped invocation raises that exception and calls the base tool no
    more, whatever is left of the retry budget. *)
Theorem unmatched_exception_not_retried self w es e w' :
  Retry.fails_then_raises invoke w es e w' ->
  Forall (caught self) es ->
  Retry.catches isinstance (Retry._exceptions self) e = false ->
  (Z.of_nat (length es) <= Retry._max_retries self)%Z ->
  exists st,
    Retry.retry_invoke isinstance invoke self w
    = Some (Retry.Raised e, st) /\
    Retry.calls st = length es + 1 /\ Retry.world st = w'.
Proof.
  intros Hb Hc Hu Hk. unfold Retry.retry_invoke.
  edestruct (retry_loop_unmatched self w es e w' Hb Hc Hu
               (S (Z.to_nat (Retry._max_retries self + 1))) 0%Z None
               (Retry.start w)) as (st & Hr & Hcalls & Hw);
    [reflexivity|lia|lia|].
  exists st. repeat split; [exact Hr|exact Hcalls|exact Hw].
Qed.

End RetryClaims.

Section RetryExamples.
Import ToolModel.

Lemma init_default_attrs_witness :
  let self := Flaky.wrapped 3 Retry.NoExceptions in
  name (Retry.tool_attrs self) = lit "search::retry_3" /\
  args (Retry.tool_attrs self) = args Flaky.base /\
  description (Retry.tool_attrs self) = description Flaky.base.
Proof.
  apply (init_default_attrs Flaky.Exception Flaky.base 3
           Retry.NoExceptions 0 None None); reflexivity.
Defined.

(** C6 fails as stated: the name of the wrapper is not the name of the
    base tool. *)
Lemma retry_name_differs :
  let self := Flaky.wrapped 3 Retry.NoExceptions in
  name (Retry.tool_attrs self) = lit "search::retry_3" /\
  name (Retry.tool_attrs self) <> name Flaky.base.
Proof. split; [reflexivity | discriminate]. Qed.

Lemma flaky_fails_twice :
  Retry.fails_then_succeeds Flaky.invoke 0
    [{| Flaky.class_of := Flaky.TimeoutError; Flaky.call_no := 1 |};
     {| Flaky.class_of := Flaky.TimeoutError; Flaky.call_no := 2 |}] 3 3.
Proof. repeat (econstructor; try reflexivity). Qed.

Lemma retry_fails_k_then_succeeds_witness :
  (exists st,
     Retry.retry_invoke Flaky.isinstance Flaky.invoke
       (Flaky.wrapped 5 Retry.NoExceptions) 0
     = Some (Retry.Returned 3, st) /\
     Retry.calls st = 3 /\ Retry.world st = 3) /\
  (exists e st,
     [{| Flaky.class_of := Flaky.TimeoutError; Flaky.call_no := 1 |};
      {| Flaky.class_of := Flaky.TimeoutError; Flaky.call_no := 2 |}]
       !! 1 = Some e /\
     Retry.retry_invoke Flaky.isinstance Flaky.invoke
       (Flaky.wrapped 1 Retry.NoExceptions) 0
     = Some (Retry.Raised e, st) /\
     Retry.calls st = 2).
Proof.
  split.
  - apply (proj1 (retry_fails_k_then_succeeds Flaky.isinstance Flaky.invoke
                    (Flaky.wrapped 5 Retry.NoExceptions) 0 _ 3 3
                    flaky_fails_twice
                    ltac:(repeat constructor))).
    vm_compute. discriminate.
  - apply (proj2 (retry_fails_k_then_succeeds Flaky.isinstance Flaky.invoke
                    (Flaky.wrapped 1 Retry.NoExceptions) 0 _ 3 3
                    flaky_fails_twice
                    ltac:(repeat constructor))).
    vm_compute. split; [discriminate | reflexivity].
Defined.

Lemma unmatched_exception_not_retried_witness :
  exists st,
    Retry.retry_invoke Flaky.isinstance Flaky.invoke
      (Flaky.wrapped 5 (Retry.OneException Flaky.KeyError)) 0
    = Some (Retry.Raised {| Flaky.class_of := Flaky.TimeoutError;
                            Flaky.call_no := 1 |}, st) /\
    Retry.calls st = 1 /\ Retry.world st = 1.
Proof.
  apply (unmatched_exception_not_retried Flaky.isinstance Flaky.invoke
           (Flaky.wrapped 5 (Retry.OneException Flaky.KeyError)) 0 []
           {| Flaky.class_of := Flaky.TimeoutError; Flaky.call_no := 1 |} 1).
  - constructor. reflexivity.
  - constructor.
  - reflexivity.
  - vm_compute. discriminate.
Defined.

End RetryExamples.

(** ** Claims about the Registrar *)

Section RegistrarClaims.
Import Registrar.

Lemma dict_set_length_mem {V : Type} k (v : V) d :
  dict_mem k d = true -> length (dict_set k v d) = length d.
Proof.
  induction d as [|[k' v'] d IH]; cbn [dict_mem existsb dict_set fst length];
    [discriminate|].
  destruct (pystr_eqb k k'); cbn [orb length]; [reflexivity|].
  intros H. rewrite IH; [reflexivity|exact H].
Qed.

(** [register] does not fail on a live tool. *)
Lemma register_total tool s :
  is_Some (heap s !! tool) -> is_Some (register tool s).
Proof. intros [t Ht]. unfold register. rewrite Ht. cbn. eauto. Qed.

(** Registering a known identity leaves the number of tools unchanged. *)
Lemma register_known_length tool t s s' :
  heap s !! tool = Some t ->
  dict_mem (id t) (_tools s) = true ->
  register tool s = Some s' ->
  length (get_tools s') = length (get_tools s).
Proof.
  intros Ht Hm Hr. unfold register in Hr. rewrite Ht in Hr. cbn in Hr.
  inversion Hr; subst; clear Hr. unfold get_tools. cbn [_tools].
  rewrite !length_map. apply dict_set_length_mem. exact Hm.
Qed.

(** C3, on the code.  Two tool objects share the identity [search].
    Registering the second after the first replaces the entry of the
    mapping; and registering one tool twice puts the registrar's hook
    twice in its listener list, so that one invocation hands two tasks
    to the executor for the single listener. *)
Theorem register_twice_replaces_and_duplicates :
  let first := {| id := lit "search"; tool_name := lit "first";
                  on_call_listeners := [] |} in
  let second := {| id := lit "search"; tool_name := lit "second";
                   on_call_listeners := [] |} in
  let s0 := add_tool_call_listener 7
              (enable (initial (<[0 := first]> (<[1 := second]> ∅)))) in
  get_tools <$> run [register 0] s0 = Some [0] /\
  get_tools <$> run [register 0; register 1] s0 = Some [1] /\
  submitted <$> run [register 0; invoke 0 5] s0 = Some [(7, 0, 5)] /\
  submitted <$> run [register 0; register 0; invoke 0 5] s0
  = Some [(7, 0, 5); (7, 0, 5)].
Proof. repeat split; vm_compute; reflexivity. Qed.

End RegistrarClaims.

(** ** More about the Retry wrapper *)

Section RetryMore.

Context {exn cls : Type} (isinstance : exn -> cls -> bool).
Context {W Ret : Type} (invoke : W -> (Ret + exn) * W).

Local Abbreviation caught' self :=
  (fun e : exn => Retry.catches isinstance (Retry._exceptions self) e = true).

Lemma slept_sleep delay (st : Retry.Run W) :
  Retry.slept (Retry.sleep delay st) =
  Retry.slept st ++ (if (0 <? delay)%Z then [delay] else []).
Proof.
  unfold Retry.sleep. destruct (0 <? delay)%Z; cbn [Retry.slept];
    [reflexivity | rewrite app_nil_r; reflexivity].
Qed.

(** What every run of the loop keeps: the number of calls it adds is at
    most the budget left, it is at least one when there is budget, and
    with a positive delay the sleeps it adds are one fewer than the calls
    it adds. *)
Lemma retry_loop_accounting self fuel attempts last st o st' :
  Retry.retry_loop isinstance invoke self fuel attempts last st
  = Some (o, st') ->
  Retry.calls st <= Retry.calls st' /\
  Retry.calls st' - Retry.calls st
    <= Z.to_nat (Retry._max_retries self + 1 - attempts) /\
  ((attempts <= Retry._max_retries self)%Z ->
   Retry.calls st < Retry.calls st') /\
  Retry.slept st' =
    Retry.slept st ++
    (if (0 <? Retry._delay self)%Z
     then repeat (Retry._delay self) (Retry.calls st' - Retry.calls st - 1)
     else []).
Proof.
  revert attempts last st.
  induction fuel as [|fuel IH]; intros attempts last st H; [discriminate|].
  cbn [Retry.retry_loop] in H.
  destruct (Z.leb_spec attempts (Retry._max_retries self)) as [Ha|Ha].
  - destruct (invoke (Retry.world st)) as [[r|e] w].
    + inversion H; subst; clear H. cbn [Retry.calls Retry.slept].
      replace (S (Retry.calls st) - Retry.calls st - 1) with 0 by lia.
      cbn [repeat]. destruct (0 <? _)%Z; rewrite app_nil_r.
      all: repeat split; auto; lia.
    + destruct (Retry.catches isinstance (Retry._exceptions self) e).
      * destruct (Z.leb_spec (attempts + 1) (Retry._max_retries self))
          as [Hb|Hb].
        -- apply IH in H as (H1 & H2 & H3 & H4).
           rewrite calls_sleep in H1, H2, H3. cbn [Retry.calls] in H1, H2, H3.
           specialize (H3 Hb).
           rewrite H4, slept_sleep, calls_sleep.
           cbn [Retry.calls Retry.slept].
           repeat split; try lia.
           rewrite <- app_assoc. f_equal.
           destruct (0 <? Retry._delay self)%Z; [|reflexivity].
           replace (Retry.calls st' - Retry.calls st - 1)
             with (S (Retry.calls st' - S (Retry.calls st) - 1)) by lia.
           reflexivity.
        -- inversion H; subst; clear H. cbn [Retry.calls Retry.slept].
           replace (S (Retry.calls st) - Retry.calls st - 1) with 0 by lia.
           cbn [repeat]. destruct (0 <? _)%Z; rewrite app_nil_r.
           all: repeat split; auto; lia.
      * inversion H; subst; clear H. cbn [Retry.calls Retry.slept].
        replace (S (Retry.calls st) - Retry.calls st - 1) with 0 by lia.
        cbn [repeat]. destruct (0 <? _)%Z; rewrite app_nil_r.
        all: repeat split; auto; lia.
  - inversion H; subst; clear H.
    replace (Retry.calls st' - Retry.calls st' - 1) with 0 by lia.
    cbn [repeat]. destruct (0 <? _)%Z; rewrite app_nil_r.
    all: repeat split; auto; lia.
Qed.

(** X1.  Whatever the base tool does, the wrapped invocation ends, and it
    calls the base tool at most [max_retries + 1] times (never, when
    [max_retries] is negative). *)
Theorem retry_invoke_calls_bounded self w :
  exists o st,
    Retry.retry_invoke isinstance invoke self w = Some (o, st) /\
    (Z.of_nat (Retry.calls st) <= Z.max 0 (Retry._max_retries self + 1))%Z.
Proof.
  destruct (retry_invoke_total isinstance invoke self w) as [[o st] H].
  exists o, st. split; [exact H|].
  apply retry_loop_accounting in H as (_ & H & _). cbn [Retry.calls Retry.start] in H.
  lia.
Qed.

(** X2.  Whatever the base tool does, the sleeps of a wrapped invocation
    are counted by its calls: with a positive delay it sleeps one time
    fewer than it calls the base tool, each time for the configured
    delay, and not at all when it does not call the tool; with a delay
    that is not positive it never sleeps. *)
Theorem retry_invoke_sleep_count self w :
  exists o st,
    Retry.retry_invoke isinstance invoke self w = Some (o, st) /\
    Retry.slept st =
      if (0 <? Retry._delay self)%Z
      then repeat (Retry._delay self) (Retry.calls st - 1)
      else [].
Proof.
  destruct (retry_invoke_total isinstance invoke self w) as [[o st] H].
  exists o, st. split; [exact H|].
  apply retry_loop_accounting in H as (_ & _ & _ & H).
  cbn [Retry.calls Retry.slept Retry.start app] in H.
  rewrite H. rewrite Nat.sub_0_r. reflexivity.
Qed.

(** X3.  With a negative [max_retries] the wrapped invocation never calls
    the base tool, does not sleep, and raises a [TypeError], because
    [raise last_exception] finds [None]. *)
Theorem retry_negative_never_calls self w :
  (Retry._max_retries self < 0)%Z ->
  Retry.retry_invoke isinstance invoke self w
  = Some (Retry.TypeError,
          {| Retry.world := w; Retry.calls := 0; Retry.slept := [] |}).
Proof.
  intros H. unfold Retry.retry_invoke. cbn [Retry.retry_loop].
  destruct (Z.leb_spec 0 (Retry._max_retries self)); [lia|reflexivity].
Qed.

(** X4.  With [max_retries = 0] the wrapper is transparent: it calls the
    base tool once, returns what it returns or raises what it raises,
    caught class or not, and does not sleep. *)
Theorem retry_zero_is_transparent self w :
  Retry._max_retries self = 0%Z ->
  Retry.retry_invoke isinstance invoke self w =
  Some (Retry.passed_on (fst (invoke w)),
        {| Retry.world := snd (invoke w); Retry.calls := 1;
           Retry.slept := [] |}).
Proof.
  intros H. unfold Retry.retry_invoke. rewrite H.
  cbn [Z.add Z.to_nat Pos.to_nat Pos.iter_op Nat.add Retry.retry_loop
       Retry.start Retry.world Retry.calls Retry.slept].
  rewrite H. cbn [Z.leb Z.compare Z.add].
  destruct (invoke w) as [[r|e] w']; cbn [fst snd Retry.passed_on]; [reflexivity|].
  destruct (Retry.catches _ _ e); reflexivity.
Qed.

(** A tool that fails with caught exceptions on every call of the budget. *)
Lemma retry_loop_all_caught self w es e w' :
  Retry.fails_then_raises invoke w es e w' ->
  Forall (caught' self) es ->
  Retry.catches isinstance (Retry._exceptions self) e = true ->
  forall fuel attempts last st,
    Retry.world st = w ->
    (attempts + Z.of_nat (length es) = Retry._max_retries self)%Z ->
    (0 <= attempts)%Z ->
    length es < fuel ->
    exists st',
      Retry.retry_loop isinstance invoke self fuel attempts last st
      = Some (Retry.Raised e, st') /\
      Retry.calls st' = Retry.calls st + length es + 1 /\
      Retry.world st' = w'.
Proof.
  induction 1 as [w e w' Hinv|w e0 w1 es e w' Hinv _ IH];
    intros Hc Hu fuel attempts last st Hw Hb Ha Hf;
    (destruct fuel as [|fuel]; [cbn [length] in Hf; lia|]);
    cbn [Retry.retry_loop length] in *.
  - destruct (Z.leb_spec attempts (Retry._max_retries self)); [|lia].
    rewrite Hw, Hinv, Hu.
    destruct (Z.leb_spec (attempts + 1) (Retry._max_retries self)); [lia|].
    eexists. split; [reflexivity|]. cbn. split; [lia|auto].
  - inversion Hc as [|? ? He Hes]; subst.
    destruct (Z.leb_spec attempts (Retry._max_retries self)); [|lia].
    rewrite Hinv, He.
    destruct (Z.leb_spec (attempts + 1) (Retry._max_retries self)); [|lia].
    edestruct (IH Hes Hu fuel (attempts + 1)%Z (Some e0)) as (st' & Hr & Hcalls & Hw');
      [| | | |rewrite Hr; eexists; split; [reflexivity|split; [|exact Hw']]].
    + rewrite world_sleep. reflexivity.
    + lia.
    + lia.
    + lia.
    + rewrite Hcalls, calls_sleep. cbn. lia.
Qed.

(** X5.  When the base tool raises a caught exception on each of its first
    [max_retries + 1] calls, the wrapped invocation makes exactly these
    calls and raises the exception of the last one, whatever the tool
    would do afterwards. *)
Theorem retry_exhausted_raises_last self w es e w' :
  Retry.fails_then_raises invoke w es e w' ->
  Forall (caught' self) es ->
  Retry.catches isinstance (Retry._exceptions self) e = true ->
  Z.of_nat (length es) = Retry._max_retries self ->
  exists st,
    Retry.retry_invoke isinstance invoke self w
    = Some (Retry.Raised e, st) /\
    Retry.calls st = length es + 1 /\ Retry.world st = w'.
Proof.
  intros Hb Hc Hu Hk. unfold Retry.retry_invoke.
  edestruct (retry_loop_all_caught self w es e w' Hb Hc Hu
               (S (Z.to_nat (Retry._max_retries self + 1))) 0%Z None
               (Retry.start w)) as (st & Hr & Hcalls & Hw);
    [reflexivity|lia|lia|lia|].
  exists st. repeat split; [exact Hr|exact Hcalls|exact Hw].
Qed.

End RetryMore.

Section RetryMoreExamples.

Lemma retry_negative_never_calls_witness :
  Retry.retry_invoke Flaky.isinstance Flaky.invoke
    (Flaky.wrapped (-1) Retry.NoExceptions) 0
  = Some (Retry.TypeError,
          {| Retry.world := 0; Retry.calls := 0; Retry.slept := [] |}).
Proof.
  apply (retry_negative_never_calls Flaky.isinstance Flaky.invoke
           (Flaky.wrapped (-1) Retry.NoExceptions) 0).
  reflexivity.
Defined.

Lemma retry_zero_is_transparent_witness :
  Retry.retry_invoke Flaky.isinstance Flaky.invoke
    (Flaky.wrapped 0 (Retry.OneException Flaky.KeyError)) 0
  = Some (Retry.Raised {| Flaky.class_of := Flaky.TimeoutError;
                          Flaky.call_no := 1 |},
          {| Retry.world := 1; Retry.calls := 1; Retry.slept := [] |}).
Proof.
  apply (retry_zero_is_transparent Flaky.isinstance Flaky.invoke
           (Flaky.wrapped 0 (Retry.OneException Flaky.KeyError)) 0).
  reflexivity.
Defined.

Lemma retry_exhausted_raises_last_witness :
  exists st,
    Retry.retry_invoke Flaky.isinstance Flaky.invoke
      (Flaky.wrapped 1 Retry.NoExceptions) 0
    = Some (Retry.Raised {| Flaky.class_of := Flaky.TimeoutError;
                            Flaky.call_no := 2 |}, st) /\
    Retry.calls st = 2 /\ Retry.world st = 2.
Proof.
  apply (retry_exhausted_raises_last Flaky.isinstance Flaky.invoke
           (Flaky.wrapped 1 Retry.NoExceptions) 0
           [{| Flaky.class_of := Flaky.TimeoutError; Flaky.call_no := 1 |}]
           {| Flaky.class_of := Flaky.TimeoutError; Flaky.call_no := 2 |} 2).
  - econstructor; [reflexivity|]. constructor. reflexivity.
  - repeat constructor.
  - reflexivity.
  - reflexivity.
Defined.

End RetryMoreExamples.

(** ** More about the Registrar *)

Section RegistrarMore.
Import Registrar.

Lemma dict_set_fresh {V : Type} k (v : V) d :
  dict_mem k d = false -> dict_set k v d = d ++ [(k, v)].
Proof.
  induction d as [|[k' v'] d IH];
    cbn [dict_mem existsb dict_set fst app]; [reflexivity|].
  destruct (pystr_eqb k k'); cbn [orb]; [discriminate|].
  intros H. rewrite IH by exact H. reflexivity.
Qed.

Lemma dict_set_keys_mem {V : Type} k (v : V) d :
  dict_mem k d = true -> map fst (dict_set k v d) = map fst d.
Proof.
  induction d as [|[k' v'] d IH];
    cbn [dict_mem existsb dict_set fst map]; [discriminate|].
  destruct (pystr_eqb k k') eqn:E; cbn [orb map fst].
  - intros _. apply bool_decide_eq_true in E. subst. reflexivity.
  - intros H. rewrite IH by exact H. reflexivity.
Qed.

(** X6.  Registering a live tool whose identity is not yet known puts it
    at the end of [get_tools()]: the tools are listed in the order of
    their registration. *)
Theorem register_new_appends tool t s :
  heap s !! tool = Some t ->
  dict_mem (id t) (_tools s) = false ->
  exists s', register tool s = Some s' /\
             get_tools s' = get_tools s ++ [tool].
Proof.
  intros Ht Hm. unfold register. rewrite Ht. cbn [mbind option_bind].
  eexists. split; [reflexivity|]. unfold get_tools. cbn [_tools].
  rewrite (dict_set_fresh _ _ _ Hm), map_app. reflexivity.
Qed.

Lemma register_new_appends_witness :
  exists s', register 2 (example_state false []) = Some s' /\
             get_tools s' = [0; 1; 2].
Proof.
  apply (register_new_appends 2
           {| id := lit "crawl"; tool_name := lit "crawl";
              on_call_listeners := [] |} (example_state false []));
    reflexivity.
Defined.

(** X7.  Registering a live tool whose identity is already known does not
    fail, and leaves the registered identities, their order and the
    number of tools of [get_tools()] as they were. *)
Theorem register_known_keeps_identities tool t s :
  heap s !! tool = Some t ->
  dict_mem (id t) (_tools s) = true ->
  exists s', register tool s = Some s' /\
             map fst (_tools s') = map fst (_tools s) /\
             length (get_tools s') = length (get_tools s).
Proof.
  intros Ht Hm. unfold register. rewrite Ht. cbn [mbind option_bind].
  eexists. split; [reflexivity|]. unfold get_tools. cbn [_tools].
  split; [apply dict_set_keys_mem; exact Hm|].
  rewrite !length_map. apply dict_set_length_mem. exact Hm.
Qed.

Lemma register_known_keeps_identities_witness :
  exists s', register 0 (example_state false []) = Some s' /\
             map fst (_tools s') = [lit "search"; lit "fetch"] /\
             length (get_tools s') = 2.
Proof.
  apply (register_known_keeps_identities 0
           {| id := lit "search"; tool_name := lit "search";
              on_call_listeners := [on_tool_call_hook] |}
           (example_state false []));
    reflexivity.
Defined.

Lemma on_tool_call_disabled tool ctx s :
  _enabled s = false -> _on_tool_call tool ctx s = s.
Proof. intros H. unfold _on_tool_call. rewrite H. reflexivity. Qed.

Lemma on_tool_calls_disabled events s :
  _enabled s = false -> on_tool_calls events s = s.
Proof.
  intros H. unfold on_tool_calls.
  induction events as [|ev events IH]; cbn [fold_left]; [reflexivity|].
  rewrite on_tool_call_disabled by exact H. exact IH.
Qed.

Lemma on_tool_calls_enabled events s :
  _enabled s = true ->
  on_tool_calls events s =
  {| _enabled := true; _tools := _tools s;
     on_tool_call_listeners := on_tool_call_listeners s;
     heap := heap s;
     submitted := submitted s
                  ++ concat (map (tasks_of (on_tool_call_listeners s))
                                 events) |}.
Proof.
  unfold on_tool_calls. revert s.
  induction events as [|ev events IH]; intros s H; cbn [fold_left map concat].
  - rewrite app_nil_r. destruct s; cbn in *; subst; reflexivity.
  - rewrite IH; unfold _on_tool_call; rewrite H; [|reflexivity].
    cbn [_tools on_tool_call_listeners heap submitted].
    rewrite <- app_assoc. reflexivity.
Qed.

(** X8.  While the registrar is enabled, a sequence of tool-call events
    hands the executor one task per event and listener: the events in
    their order and, within an event, the listeners in the order they
    were added.  Nothing else of the registrar changes. *)
Theorem dispatch_in_event_order events s :
  _enabled s = true ->
  submitted (on_tool_calls events s) =
    submitted s
    ++ concat (map (tasks_of (on_tool_call_listeners s)) events) /\
  _tools (on_tool_calls events s) = _tools s /\
  on_tool_call_listeners (on_tool_calls events s)
    = on_tool_call_listeners s /\
  is_enabled (on_tool_calls events s) = true.
Proof.
  intros H. rewrite (on_tool_calls_enabled _ _ H). repeat split.
Qed.

Lemma dispatch_in_event_order_witness :
  submitted (on_tool_calls [(0, 10); (1, 11)] (example_state true [7; 8])) =
    [(7, 0, 10); (8, 0, 10); (7, 1, 11); (8, 1, 11)] /\
  _tools (on_tool_calls [(0, 10); (1, 11)] (example_state true [7; 8]))
    = _tools (example_state true [7; 8]) /\
  on_tool_call_listeners
    (on_tool_calls [(0, 10); (1, 11)] (example_state true [7; 8])) = [7; 8] /\
  is_enabled (on_tool_calls [(0, 10); (1, 11)] (example_state true [7; 8]))
    = true.
Proof.
  apply (dispatch_in_event_order [(0, 10); (1, 11)]
           (example_state true [7; 8])).
  reflexivity.
Defined.

(** X9.  [disable] is a switch for the notifications only: the events
    that arrive while the registrar is disabled hand no task to the
    executor, then or later, and after [enable] the events that follow
    are dispatched as usual. *)
Theorem disabled_events_are_dropped before after s :
  submitted (on_tool_calls after (enable (on_tool_calls before (disable s))))
  = submitted s ++ concat (map (tasks_of (on_tool_call_listeners s)) after).
Proof.
  rewrite (on_tool_calls_disabled before (disable s)) by reflexivity.
  rewrite (on_tool_calls_enabled after (enable (disable s))) by reflexivity.
  reflexivity.
Qed.

End RegistrarMore.

(** ** More about the parser *)

Section ParserMore.

Local Open Scope N_scope.

Local Abbreviation no_key' key :=
  (fun l : pystr => startswith l (lit key) = false).
Local Abbreviation has_key' key :=
  (fun l : pystr => startswith l (lit key) = true).
Local Abbreviation quiet' env :=
  (fun l : pystr => ~ input_raises env l).

(** Lines of a concrete text on which [json.loads] does not raise. *)
Local Ltac quiet_lines' :=
  repeat constructor;
  let Hk := fresh in let e := fresh in let He := fresh in
  intros [Hk [e He]];
  first [ vm_compute in Hk; discriminate Hk
        | vm_compute in He; discriminate He ].

Lemma rstrip_idempotent s : rstrip (rstrip s) = rstrip s.
Proof.
  induction s as [|c s IH]; [reflexivity|]. cbn [rstrip].
  destruct (rstrip s) as [|r0 r] eqn:E.
  - destruct (isspace c) eqn:Hc; [reflexivity|].
    cbn [rstrip]. rewrite Hc. reflexivity.
  - cbn [rstrip] in *. rewrite IH. reflexivity.
Qed.

Lemma lstrip_rstrip_lstrip s : lstrip (rstrip (lstrip s)) = rstrip (lstrip s).
Proof.
  induction s as [|c s IH]; [reflexivity|]. cbn [lstrip].
  destruct (isspace c) eqn:Hc; [exact IH|].
  cbn [rstrip]. destruct (rstrip s); cbn [lstrip]; rewrite ?Hc; cbn [lstrip];
    rewrite ?Hc; reflexivity.
Qed.

Lemma strip_idempotent s : strip (strip s) = strip s.
Proof.
  unfold strip. rewrite lstrip_rstrip_lstrip. apply rstrip_idempotent.
Qed.

(** X10.  Whitespace around the whole text is ignored: a text and its
    trimmed form parse alike, error or not. *)
Theorem parse_ignores_outer_whitespace env text :
  parse env (strip text) = parse env text.
Proof. unfold parse. rewrite strip_idempotent. reflexivity. Qed.

(** X11.  The only exceptions [__parse] raises are [FormatException], the
    [ValueError] for an action without input, the validation error of
    the response model on [ActionInput], and the two exceptions of
    [json.loads] that the [except] clause does not catch:
    [RecursionError] and the [ValueError] of the digit limit.  The
    subscripts [[1]] after [split] are never out of range, and the
    decoding error never leaves the parser. *)
Theorem parse_raises_only env text e :
  parse env text = Raise e ->
  e = FormatException \/
  e = ValueError (lit "Action specified without Action Input") \/
  e = ValidationError (lit "ActionInput") \/
  e = RecursionError \/
  exists limit digits, e = ValueError (Json.digits_limit_message limit digits).
Proof.
  intros H.
  destruct (split_lines (strip text)) as [|line0 lines] eqn:Hl.
  - unfold parse in H. rewrite Hl in H. inversion H. auto.
  - destruct (startswith line0 (lit "Thought:")) eqn:Ht.
    + rewrite (parse_spec _ _ _ _ Hl Ht) in H.
      destruct (last_input env (scanned lines) PyNone) as [v|e'] eqn:E;
        cbn [mbind result_bind] in H.
      * unfold finish, validate in H.
        destruct (is_set _ && is_None _); [inversion H; auto|].
        destruct (is_set _ && negb _); cbn [r_ActionInput set_Answer] in H;
          destruct v; inversion H; auto.
      * inversion H; subst. apply last_input_raises in E.
        destruct E as [->|E]; auto.
    + unfold parse in H. rewrite Hl, Ht in H. inversion H. auto.
Qed.

Lemma parse_raises_only_witness :
  ValidationError (lit "ActionInput") = FormatException \/
  ValidationError (lit "ActionInput")
    = ValueError (lit "Action specified without Action Input") \/
  ValidationError (lit "ActionInput") = ValidationError (lit "ActionInput") \/
  ValidationError (lit "ActionInput") = RecursionError \/
  exists limit digits,
    ValidationError (lit "ActionInput")
    = ValueError (Json.digits_limit_message limit digits).
Proof.
  apply (parse_raises_only Json.common_env
           (unlines ["Thought: t"; "Action: search"; "Action Input: [1, 2]"])).
  reflexivity.
Defined.

Lemma scanned_no_answer lines :
  Forall (no_key' "Answer:") lines -> scanned lines = lines.
Proof.
  induction 1 as [|l ls Hl _ IH]; cbn [scanned]; [reflexivity|].
  rewrite Hl, IH. reflexivity.
Qed.

Lemma answer_of_no_answer lines :
  Forall (no_key' "Answer:") lines -> answer_of lines = None.
Proof.
  induction 1 as [|l ls Hl _ IH]; cbn [answer_of]; [reflexivity|].
  rewrite Hl. exact IH.
Qed.

(** X12.  A text whose first line starts with [Thought:] and that has no
    [Action:], [Action Input:] or [Answer:] line parses to a response with
    the trimmed rest of the first line as its thought and nothing else:
    no tool call, and [None] for an answer. *)
Theorem thought_only_parses env text line0 lines :
  split_lines (strip text) = line0 :: lines ->
  startswith line0 (lit "Thought:") = true ->
  Forall (no_key' "Action:") lines ->
  Forall (no_key' "Action Input:") lines ->
  Forall (no_key' "Answer:") lines ->
  parse env text = Ok {| Thought := after (lit "Thought:") line0;
                         Action := None; ActionInput := None;
                         Answer := None |} /\
  parse_for_tool_calls env text = Ok [] /\
  parse_for_result env text = Ok None.
Proof.
  intros Hl Ht Ha Hi Hw.
  unfold parse_for_tool_calls, parse_for_result.
  rewrite (parse_spec _ _ _ _ Hl Ht), (scanned_no_answer _ Hw),
    (answer_of_no_answer _ Hw), (last_action_none _ _ Ha),
    (last_input_none _ _ _ Hi).
  repeat split.
Qed.

Lemma thought_only_parses_witness :
  let text := unlines ["Thought:  think  "; ""; "some more"] in
  parse Json.common_env text
    = Ok {| Thought := lit "think";
            Action := None; ActionInput := None; Answer := None |} /\
  parse_for_tool_calls Json.common_env text = Ok [] /\
  parse_for_result Json.common_env text = Ok None.
Proof.
  apply (thought_only_parses Json.common_env
           (unlines ["Thought:  think  "; ""; "some more"])
           (lit "Thought:  think  ") [[]; lit "some more"]);
    try reflexivity; repeat constructor.
Defined.

(** X13.  Of several [Action:] lines before the first [Answer:] line the
    last one decides: with a non-empty name on it, and a last
    [Action Input:] line whose remainder [json.loads] decodes to an
    object, no [Action Input:] line before it making [json.loads] raise
    [RecursionError] or the [ValueError] of the digit limit,
    [parse_for_tool_calls] returns exactly one call, of that name with
    that object, whether or not an [Answer:] line follows. *)
Theorem last_action_is_the_call
    env text line0 lines pre act post pre' inp post' d :
  split_lines (strip text) = line0 :: lines ->
  startswith line0 (lit "Thought:") = true ->
  scanned lines = pre ++ act :: post ->
  startswith act (lit "Action:") = true ->
  Forall (no_key' "Action:") post ->
  after (lit "Action:") act <> [] ->
  scanned lines = pre' ++ inp :: post' ->
  Forall (quiet' env) pre' ->
  startswith inp (lit "Action Input:") = true ->
  Forall (no_key' "Action Input:") post' ->
  Json.loads env (after (lit "Action Input:") inp) = Json.Decoded (PyDict d) ->
  parse_for_tool_calls env text = Ok [(after (lit "Action:") act, Some d)].
Proof.
  intros Hl Ht Hs Ha Hp He Hs' Hq Hi Hp' Hj.
  assert (Hact : last_action (scanned lines) None
                 = Some (after (lit "Action:") act)).
  { rewrite Hs. apply (last_action_last _ _ _ _ Ha Hp). }
  assert (Hin : last_input env (scanned lines) PyNone = Ok (PyDict d)).
  { rewrite Hs', (last_input_last _ _ _ _ _ Hq Hi Hp').
    unfold action_input_value. rewrite Hj. reflexivity. }
  unfold parse_for_tool_calls.
  rewrite (parse_spec _ _ _ _ Hl Ht), Hin, Hact. cbn [mbind result_bind].
  unfold finish. cbn [r_Action r_ActionInput r_Answer is_set is_None andb].
  destruct (after (lit "Action:") act) eqn:E; [congruence|].
  destruct (negb _); reflexivity.
Qed.

Lemma last_action_is_the_call_witness :
  parse_for_tool_calls Json.common_env
    (unlines ["Thought: t"; "Action: first"; "Action Input: {}";
              "Action: second"; "Answer: done"; "Action: third"])
  = Ok [(lit "second", Some [])].
Proof.
  apply (last_action_is_the_call Json.common_env _ (lit "Thought: t")
           [lit "Action: first"; lit "Action Input: {}";
            lit "Action: second"; lit "Answer: done"; lit "Action: third"]
           [lit "Action: first"; lit "Action Input: {}"]
           (lit "Action: second") []
           [lit "Action: first"] (lit "Action Input: {}")
           [lit "Action: second"] []);
    try reflexivity; try discriminate; try (repeat constructor; fail).
  quiet_lines'.
Defined.

(** X14.  When there is an [Action:] line and no [Answer:] line at all,
    [json.loads] decodes the remainder of the last [Action Input:] line
    to an object, and no [Action Input:] line before it makes
    [json.loads] raise [RecursionError] or the [ValueError] of the digit
    limit, the answer of the response is the empty string, not
    [None]. *)
Theorem answer_is_synthesised env text line0 lines pre inp post d :
  split_lines (strip text) = line0 :: lines ->
  startswith line0 (lit "Thought:") = true ->
  Forall (no_key' "Answer:") lines ->
  Exists (has_key' "Action:") lines ->
  lines = pre ++ inp :: post ->
  Forall (quiet' env) pre ->
  startswith inp (lit "Action Input:") = true ->
  Forall (no_key' "Action Input:") post ->
  Json.loads env (after (lit "Action Input:") inp) = Json.Decoded (PyDict d) ->
  parse_for_result env text = Ok (Some []).
Proof.
  intros Hl Ht Hw Ha Hs Hq Hi Hp Hj.
  assert (Hin : last_input env lines PyNone = Ok (PyDict d)).
  { rewrite Hs, (last_input_last _ _ _ _ _ Hq Hi Hp).
    unfold action_input_value. rewrite Hj. reflexivity. }
  unfold parse_for_result. rewrite (parse_spec _ _ _ _ Hl Ht).
  rewrite (scanned_no_answer _ Hw), (answer_of_no_answer _ Hw), Hin.
  cbn [mbind result_bind].
  unfold finish. cbn [r_Action r_ActionInput r_Answer].
  rewrite (last_action_exists _ None Ha). reflexivity.
Qed.

Lemma answer_is_synthesised_witness :
  parse_for_result Json.common_env
    (unlines ["Thought: t"; "Action: search"; "Action Input: {}"])
  = Ok (Some []).
Proof.
  apply (answer_is_synthesised Json.common_env _ (lit "Thought: t")
           [lit "Action: search"; lit "Action Input: {}"]
           [lit "Action: search"] (lit "Action Input: {}") [] []);
    try reflexivity; try (repeat constructor; fail).
  quiet_lines'.
Defined.

(** X15.  What follows the first [Answer:] line is never read as a
    directive: two texts that agree up to and including that line give
    the same tool calls (or the same exception), whatever their later
    lines are. *)
Theorem lines_after_answer_are_not_directives
    env text1 text2 line0 pre ans post1 post2 :
  split_lines (strip text1) = line0 :: pre ++ ans :: post1 ->
  split_lines (strip text2) = line0 :: pre ++ ans :: post2 ->
  Forall (no_key' "Answer:") pre ->
  startswith ans (lit "Answer:") = true ->
  parse_for_tool_calls env text1 = parse_for_tool_calls env text2.
Proof.
  intros H1 H2 Hw Hans. unfold parse_for_tool_calls.
  destruct (startswith line0 (lit "Thought:")) eqn:Ht.
  - rewrite (parse_spec _ _ _ _ H1 Ht), (parse_spec _ _ _ _ H2 Ht).
    rewrite !(scanned_app_answer _ _ _ Hw Hans).
    rewrite !(answer_of_app_answer _ _ _ Hw Hans).
    destruct (last_input env pre PyNone) as [v|e]; cbn [mbind result_bind];
      [|reflexivity].
    unfold finish, validate. cbn [r_Action r_ActionInput r_Answer is_set].
    rewrite andb_false_r.
    destruct (is_set _ && is_None _); [reflexivity|].
    destruct v; reflexivity.
  - unfold parse. rewrite H1, H2, Ht. reflexivity.
Qed.

Lemma lines_after_answer_are_not_directives_witness :
  parse_for_tool_calls Json.common_env
    (unlines ["Thought: t"; "Answer: a"; "Action: search"])
  = parse_for_tool_calls Json.common_env
      (unlines ["Thought: t"; "Answer: a"; "Action Input: 5"; "x"]).
Proof.
  apply (lines_after_answer_are_not_directives Json.common_env _ _
           (lit "Thought: t") []
           (lit "Answer: a") [lit "Action: search"]
           [lit "Action Input: 5"; lit "x"]);
    try reflexivity; constructor.
Defined.

End ParserMore.


(** ** More about the tool-result messages *)

Section PromptMore.

(** X16.  Handling the results of several tool calls at once gives the
    same prompt as handling a first part of them and then the rest: the
    messages depend on no state other than the prompt they are appended
    to. *)
Theorem tool_results_to_prompts_app prompt results1 results2 :
  tool_results_to_prompts prompt (results1 ++ results2) =
  tool_results_to_prompts (tool_results_to_prompts prompt results1) results2.
Proof.
  revert prompt.
  induction results1 as [|[[name args] result] results1 IH]; intros prompt;
    cbn [app tool_results_to_prompts]; [reflexivity|].
  apply IH.
Qed.

End PromptMore.

(** ** [__break_down_content] and [topic_query] *)

Section WikipediaFacts.
Import Wikipedia.
Local Open Scope N_scope.

Lemma split_lines_line a b :
  ~ In nl a -> split_lines (a ++ nl :: b) = a :: split_lines b.
Proof.
  induction a as [|c a IH]; intros H; cbn [app split_lines].
  - rewrite N.eqb_refl. reflexivity.
  - destruct (N.eqb_spec c nl) as [->|_]; [exfalso; apply H; left; reflexivity|].
    rewrite IH; [reflexivity|]. intros Hin. apply H. right. exact Hin.
Qed.

(** On a line that is not blank both subscripts are in range. *)
Lemma is_header_nonblank line :
  is_empty (strip line) = false ->
  is_header line = Ok (header_line line).
Proof.
  intros Hb. unfold header_line. rewrite Hb. cbn [negb andb].
  destruct line as [|c line]; [discriminate|].
  unfold is_header, subscript, subscript_last.
  cbn [lookup list_lookup mbind result_bind head].
  destruct (last (c :: line)) as [b|] eqn:El.
  - destruct (c =? 61); reflexivity.
  - apply last_None in El. discriminate.
Qed.

Ltac no_newline :=
  let H := fresh in
  intros H; cbv in H;
  repeat (destruct H as [H|H]; [discriminate H|]); exact H.

Lemma break_loop_step lines st :
  break_loop lines st =
  Ok (fold_left step
        (List.filter (fun line => negb (is_empty (strip line))) lines) st).
Proof.
  revert st. induction lines as [|line lines IH]; intros st;
    cbn [break_loop List.filter]; [reflexivity|].
  destruct (is_empty (strip line)) eqn:Hb; cbn [negb]; [apply IH|].
  rewrite (is_header_nonblank _ Hb). cbn [mbind result_bind fold_left].
  unfold step at 2. destruct (header_line line); apply IH.
Qed.

(** [__break_down_content] never raises; its result is read off the lines
    that are not blank, starting under the title [Title]. *)
Lemma break_down_content_spec content :
  break_down_content content =
  Ok (flush (fold_left step (nonblank_lines content)
               {| sections := []; current_section := [];
                  current_title := lit "Title" |})).
Proof.
  unfold break_down_content, nonblank_lines.
  change (lit "= Title =" ++ [nl; nl] ++ content)
    with (lit "= Title =" ++ nl :: ([] ++ nl :: content)).
  rewrite split_lines_line by no_newline.
  rewrite split_lines_line by (intros []).
  rewrite break_loop_step. reflexivity.
Qed.

Lemma fold_step_no_header lines st :
  Forall (fun line => header_line line = false) lines ->
  fold_left step lines st =
  {| sections := sections st;
     current_section := current_section st ++ lines;
     current_title := current_title st |}.
Proof.
  intros H. revert st. induction H as [|l ls Hl _ IH]; intros st;
    cbn [fold_left].
  - rewrite app_nil_r. destruct st; reflexivity.
  - rewrite IH. unfold step. rewrite Hl.
    cbn [sections current_section current_title].
    rewrite <- app_assoc. reflexivity.
Qed.

(** X17.  A page without text (empty, or blank lines only) has no
    sections: the title that is put in front of the content is not a
    section of its own. *)
Theorem break_down_blank_content content :
  nonblank_lines content = [] ->
  break_down_content content = Ok [].
Proof.
  intros H. rewrite break_down_content_spec, H. reflexivity.
Qed.

Lemma break_down_blank_content_witness :
  break_down_content (unlines [""; "   "; ""]) = Ok [].
Proof. apply break_down_blank_content. reflexivity. Defined.

(** X18.  A page with text and without any header line comes out as the
    single section [Title], whose text is the lines that are not blank,
    as they are, joined by single spaces. *)
Theorem break_down_no_header content :
  nonblank_lines content <> [] ->
  Forall (fun line => header_line line = false) (split_lines content) ->
  break_down_content content =
  Ok [(lit "Title", join (lit " ") (nonblank_lines content))].
Proof.
  intros Hn Hh. rewrite break_down_content_spec.
  rewrite fold_step_no_header.
  - cbn [sections current_section current_title app]. unfold flush.
    cbn [sections current_section current_title].
    destruct (nonblank_lines content); [congruence|reflexivity].
  - unfold nonblank_lines. apply List.Forall_forall. intros l Hl.
    apply filter_In in Hl as [Hl _].
    rewrite List.Forall_forall in Hh. apply Hh. exact Hl.
Qed.

Lemma break_down_no_header_witness :
  break_down_content (unlines ["first line"; ""; " = not a header"]) =
  Ok [(lit "Title", lit "first line  = not a header")].
Proof.
  apply (break_down_no_header
           (unlines ["first line"; ""; " = not a header"]));
    [discriminate | repeat constructor].
Defined.

(** X19.  Blank lines never matter: two pages with the same lines that
    are not blank have the same sections. *)
Theorem break_down_ignores_blank_lines content1 content2 :
  nonblank_lines content1 = nonblank_lines content2 ->
  break_down_content content1 = break_down_content content2.
Proof.
  intros H. rewrite !break_down_content_spec, H. reflexivity.
Qed.

Lemma break_down_ignores_blank_lines_witness :
  break_down_content (unlines ["== A =="; ""; "text"; "  "; "more"]) =
  break_down_content (unlines ["== A =="; "text"; "more"; ""]).
Proof. apply break_down_ignores_blank_lines. reflexivity. Defined.

Lemma dict_set_Forall {V : Type} (P : pystr * V -> Prop) k v d :
  P (k, v) -> Forall P d -> Forall P (dict_set k v d).
Proof.
  intros Hkv H. induction H as [|[k' v'] d Hx Hd IH]; cbn [dict_set].
  - repeat constructor. exact Hkv.
  - destruct (pystr_eqb k k'); constructor; assumption.
Qed.

Lemma join_not_nil sep x xs : x <> [] -> join sep (x :: xs) <> [].
Proof.
  intros Hx. destruct x as [|c x]; [congruence|].
  destruct xs; cbn [join app]; discriminate.
Qed.

Lemma rstrip_chars_idempotent chars s :
  rstrip_chars chars (rstrip_chars chars s) = rstrip_chars chars s.
Proof.
  induction s as [|c s IH]; [reflexivity|]. cbn [rstrip_chars].
  destruct (rstrip_chars chars s) as [|r0 r] eqn:E.
  - destruct (in_chars chars c) eqn:Hc; [reflexivity|].
    cbn [rstrip_chars]. rewrite Hc. reflexivity.
  - cbn [rstrip_chars] in *. rewrite IH. reflexivity.
Qed.

Lemma lstrip_rstrip_lstrip_chars chars s :
  lstrip_chars chars (rstrip_chars chars (lstrip_chars chars s)) =
  rstrip_chars chars (lstrip_chars chars s).
Proof.
  induction s as [|c s IH]; [reflexivity|]. cbn [lstrip_chars].
  destruct (in_chars chars c) eqn:Hc; [exact IH|].
  cbn [rstrip_chars]. destruct (rstrip_chars chars s);
    cbn [lstrip_chars]; rewrite ?Hc; cbn [lstrip_chars]; rewrite ?Hc;
    reflexivity.
Qed.

Lemma strip_chars_idempotent chars s :
  strip_chars chars (strip_chars chars s) = strip_chars chars s.
Proof.
  unfold strip_chars. rewrite lstrip_rstrip_lstrip_chars.
  apply rstrip_chars_idempotent.
Qed.

Lemma flush_tidy st :
  tidy st ->
  Forall (fun kv => snd kv <> [] /\
                    strip_chars (lit " =") (fst kv) = fst kv) (flush st).
Proof.
  intros (Hs & Hc & Ht). unfold flush.
  destruct (current_section st) as [|l ls] eqn:E; [exact Hs|].
  apply dict_set_Forall; [|exact Hs]. cbn [fst snd]. split; [|exact Ht].
  apply join_not_nil. inversion Hc; assumption.
Qed.

Lemma step_tidy st line :
  line <> [] -> tidy st -> tidy (step st line).
Proof.
  intros Hl Hst. unfold step. destruct (header_line line).
  - split; [|split]; cbn [sections current_section current_title].
    + apply flush_tidy. exact Hst.
    + constructor.
    + apply strip_chars_idempotent.
  - destruct Hst as (Hs & Hc & Ht).
    split; [|split]; cbn [sections current_section current_title].
    + exact Hs.
    + apply Forall_app. split; [exact Hc|]. repeat constructor. exact Hl.
    + exact Ht.
Qed.

Lemma fold_step_tidy lines st :
  Forall (fun line => line <> []) lines -> tidy st ->
  tidy (fold_left step lines st).
Proof.
  intros H. revert st. induction H as [|l ls Hl _ IH]; intros st Hst;
    cbn [fold_left]; [exact Hst|].
  apply IH. apply step_tidy; assumption.
Qed.

Lemma nonblank_lines_not_nil content :
  Forall (fun line => line <> []) (nonblank_lines content).
Proof.
  unfold nonblank_lines. apply List.Forall_forall. intros l Hl.
  apply filter_In in Hl as [_ Hl]. intros ->. discriminate Hl.
Qed.

(** X20.  Whatever the page, [__break_down_content] does not raise, no
    section it returns has an empty text (a header that is followed by
    another header, or by nothing, leaves no entry), and no title begins
    or ends with a space or an equals sign. *)
Theorem break_down_sections_are_tidy content :
  exists secs,
    break_down_content content = Ok secs /\
    Forall (fun kv => snd kv <> [] /\
                      strip_chars (lit " =") (fst kv) = fst kv) secs.
Proof.
  eexists. split; [apply break_down_content_spec|].
  apply flush_tidy. apply fold_step_tidy.
  - apply nonblank_lines_not_nil.
  - repeat split; constructor.
Qed.

Lemma fold_topics topics out :
  fold_left (fun out topic => out ++ topic ++ [nl]) topics out =
  out ++ concat (map (fun topic => topic ++ [nl]) topics).
Proof.
  revert out. induction topics as [|t ts IH]; intros out;
    cbn [fold_left map concat].
  - rewrite app_nil_r. reflexivity.
  - rewrite IH. rewrite <- !app_assoc. reflexivity.
Qed.

Lemma split_lines_topics topics :
  Forall (fun topic => ~ In nl topic) topics ->
  split_lines (concat (map (fun topic => topic ++ [nl]) topics)) =
  topics ++ [[]].
Proof.
  induction 1 as [|t ts Ht _ IH]; cbn [map concat app]; [reflexivity|].
  rewrite <- app_assoc. cbn [app].
  rewrite (split_lines_line _ _ Ht), IH. reflexivity.
Qed.

(** X21.  When the search returns titles, none of which contains a
    newline, the text [topic_query] returns has the heading on its first
    line and then the titles, one per line and in the order of the search,
    and it ends with a newline. *)
Theorem topic_query_lists_titles topics :
  topics <> [] ->
  Forall (fun topic => ~ In nl topic) topics ->
  split_lines (topic_query topics) = topics_heading :: topics ++ [[]].
Proof.
  intros Hn Ht. unfold topic_query.
  destruct topics as [|t ts] eqn:E; [congruence|]. rewrite <- E in *.
  rewrite fold_topics. rewrite <- app_assoc. cbn [app].
  rewrite split_lines_line by no_newline.
  rewrite (split_lines_topics _ Ht). reflexivity.
Qed.

Lemma topic_query_lists_titles_witness :
  split_lines (topic_query [lit "Rocq"; lit "Coq (software)"]) =
  [topics_heading; lit "Rocq"; lit "Coq (software)"; []].
Proof.
  apply (topic_query_lists_titles [lit "Rocq"; lit "Coq (software)"]).
  - discriminate.
  - repeat constructor; no_newline.
Defined.

End WikipediaFacts.

(** ** [__strip_url] and [process_search_results] *)

Section StripUrlFacts.
Import WebSearcher.
Local Open Scope N_scope.

Lemma cut_from_In x c b s : In x (cut_from c b s) -> In x s.
Proof.
  revert b. induction s as [|y s IH]; intros b; cbn [cut_from]; [auto|].
  destruct (y =? nl).
  - intros [H|H]; [left; exact H | right; eapply IH; exact H].
  - destruct b.
    + intros H. right. eapply IH. exact H.
    + destruct (y =? c).
      * intros H. right. eapply IH. exact H.
      * intros [H|H]; [left; exact H | right; eapply IH; exact H].
Qed.

Lemma cut_from_removes c b s : c <> nl -> ~ In c (cut_from c b s).
Proof.
  intros Hc. revert b. induction s as [|y s IH]; intros b;
    cbn [cut_from]; [auto|].
  destruct (N.eqb_spec y nl) as [->|Hn].
  - intros [H|H]; [congruence | exact (IH _ H)].
  - destruct b; [apply IH|].
    destruct (N.eqb_spec y c) as [->|Hy]; [apply IH|].
    intros [H|H]; [congruence | exact (IH _ H)].
Qed.

Lemma drop_slashes_In x s : In x (drop_slashes s) -> In x s.
Proof.
  induction s as [|y s IH]; cbn [drop_slashes]; [auto|].
  destruct (y =? 47); [intros H; right; apply IH; exact H | auto].
Qed.

Lemma sub_trailing_slashes_In x s : In x (sub_trailing_slashes s) -> In x s.
Proof.
  induction s as [|y s IH]; cbn [sub_trailing_slashes]; [auto|].
  destruct ((y =? 47) && at_end (drop_slashes s)).
  - intros H. right. apply drop_slashes_In. exact H.
  - intros [H|H]; [left; exact H | right; apply IH; exact H].
Qed.

Lemma drop_In {A : Type} (x : A) n s : In x (drop n s) -> In x s.
Proof.
  revert s. induction n as [|n IH]; intros s; [auto|].
  destruct s as [|y s]; cbn [drop skipn]; [auto|].
  intros H. right. apply IH. exact H.
Qed.

Lemma sub_scheme_In x s : In x (sub_scheme s) -> In x s.
Proof.
  unfold sub_scheme.
  destruct (startswith s (lit "https://")); [apply drop_In|].
  destruct (startswith s (lit "http://")); [apply drop_In | auto].
Qed.

Lemma sub_www_In x s : In x (sub_www s) -> In x s.
Proof.
  unfold sub_www. destruct (startswith s (lit "www.")); [apply drop_In|auto].
Qed.

(** X22.  A stripped URL contains neither a question mark nor a hash
    sign, whatever the URL was. *)
Theorem strip_url_has_no_query_or_fragment url :
  ~ In 63 (strip_url url) /\ ~ In 35 (strip_url url).
Proof.
  unfold strip_url. split; intros H;
    apply sub_www_In, sub_scheme_In, sub_trailing_slashes_In in H.
  - apply cut_from_In in H. revert H. apply cut_from_removes. discriminate.
  - revert H. apply cut_from_removes. discriminate.
Qed.

Lemma cut_from_skip c t : ~ In nl t -> cut_from c true t = [].
Proof.
  induction t as [|y t IH]; intros H; cbn [cut_from]; [reflexivity|].
  destruct (N.eqb_spec y nl) as [->|_]; [exfalso; apply H; left; reflexivity|].
  apply IH. intros Hin. apply H. right. exact Hin.
Qed.

Lemma cut_from_app c A B :
  ~ In c A -> ~ In nl A ->
  cut_from c false (A ++ B) = A ++ cut_from c false B.
Proof.
  induction A as [|y A IH]; intros Hc Hn; cbn [app cut_from]; [reflexivity|].
  destruct (N.eqb_spec y nl) as [->|_]; [exfalso; apply Hn; left; reflexivity|].
  destruct (N.eqb_spec y c) as [->|_]; [exfalso; apply Hc; left; reflexivity|].
  rewrite IH; [reflexivity | |]; intros Hin; [apply Hc|apply Hn]; right;
    exact Hin.
Qed.

(** The two substitutions that remove the query and the fragment. *)
Lemma cut_query_and_fragment A tail :
  ~ In 63 A -> ~ In 35 A -> ~ In nl A -> query_or_fragment tail ->
  cut_from 35 false (cut_from 63 false (A ++ tail)) = A.
Proof.
  intros Hq Hf Hn Ht. rewrite (cut_from_app _ _ _ Hq Hn).
  destruct Ht as [->|(c & t & -> & [->| ->] & Hnl)].
  - cbn [cut_from]. rewrite (cut_from_app _ _ _ Hf Hn). cbn [cut_from].
    apply app_nil_r.
  - cbn [cut_from N.eqb Pos.eqb nl]. rewrite (cut_from_skip _ _ Hnl).
    rewrite (cut_from_app _ _ _ Hf Hn). cbn [cut_from]. apply app_nil_r.
  - cbn [cut_from N.eqb Pos.eqb nl].
    rewrite (cut_from_app _ _ _ Hf Hn). cbn [cut_from N.eqb Pos.eqb nl].
    rewrite cut_from_skip; [apply app_nil_r|].
    intros Hin. apply Hnl. eapply cut_from_In. exact Hin.
Qed.

Lemma sub_trailing_slashes_repeat n :
  sub_trailing_slashes (repeat 47 n) = [].
Proof.
  destruct n as [|n]; [reflexivity|]. cbn [repeat sub_trailing_slashes].
  assert (H : drop_slashes (repeat 47 n) = []).
  { induction n as [|n IH]; [reflexivity|].
    cbn [repeat drop_slashes N.eqb Pos.eqb]. exact IH. }
  rewrite H. reflexivity.
Qed.

Lemma drop_slashes_stops B y R :
  y <> 47 ->
  exists z rest, drop_slashes (B ++ y :: R) = z :: rest /\ In z (B ++ [y]).
Proof.
  intros Hy. induction B as [|x B IH]; cbn [app drop_slashes].
  - destruct (N.eqb_spec y 47); [congruence|].
    exists y, R. split; [reflexivity | left; reflexivity].
  - destruct (N.eqb_spec x 47) as [->|_].
    + destruct IH as (z & rest & E & Hin). exists z, rest.
      split; [exact E | right; exact Hin].
    + eexists _, _. split; [reflexivity | left; reflexivity].
Qed.

Lemma sub_trailing_slashes_app B y n :
  y <> 47 -> ~ In nl (B ++ [y]) ->
  sub_trailing_slashes ((B ++ [y]) ++ repeat 47 n) = B ++ [y].
Proof.
  intros Hy. induction B as [|x B IH]; intros Hn;
    cbn [app sub_trailing_slashes].
  - destruct (N.eqb_spec y 47); [congruence|]. cbn [andb].
    rewrite sub_trailing_slashes_repeat. reflexivity.
  - assert (Hn' : ~ In nl (B ++ [y])) by (intros H; apply Hn; right; exact H).
    replace ((x =? 47) && at_end (drop_slashes ((B ++ [y]) ++ repeat 47 n)))
      with false; [rewrite IH by exact Hn'; reflexivity|].
    rewrite <- app_assoc. cbn [app].
    destruct (drop_slashes_stops B y (repeat 47 n) Hy) as (z & rest & -> & Hz).
    assert (z <> nl) by (intros ->; exact (Hn' Hz)).
    destruct rest; cbn [at_end];
      [destruct (N.eqb_spec z nl); [congruence|]|]; symmetry;
      apply andb_false_r.
Qed.

(** X23.  Every decorated form of a bare URL is stripped to it: with or
    without [http://] or [https://], with or without [www.], with any
    number of trailing slashes, and with or without a query or a fragment
    after them. *)
Theorem strip_url_normal_form scheme www u n tail :
  In scheme [[]; lit "http://"; lit "https://"] ->
  In www [[]; lit "www."] ->
  bare u ->
  query_or_fragment tail ->
  strip_url (scheme ++ www ++ u ++ repeat 47 n ++ tail) = u.
Proof.
  intros Hs Hw (Hq & Hf & Hn & (u0 & y & -> & Hy) & Hh & Hhs & Hwww) Ht.
  unfold strip_url.
  assert (Hs' : forall c, c = 63 \/ c = 35 \/ c = nl -> ~ In c scheme).
  { intros c Hc Hin.
    destruct Hs as [<-|[<-|[<-|[]]]]; cbv in Hin;
      repeat (destruct Hin as [Hin|Hin];
              [subst c; destruct Hc as [Hc|[Hc|Hc]]; discriminate Hc|]);
      exact Hin. }
  assert (Hw' : forall c, c = 63 \/ c = 35 \/ c = nl -> ~ In c www).
  { intros c Hc Hin.
    destruct Hw as [<-|[<-|[]]]; cbv in Hin;
      repeat (destruct Hin as [Hin|Hin];
              [subst c; destruct Hc as [Hc|[Hc|Hc]]; discriminate Hc|]);
      exact Hin. }
  assert (Hr : forall c, c <> 47 -> ~ In c (repeat 47 n)).
  { intros c Hc Hin. apply repeat_spec in Hin. congruence. }
  assert (HA : forall c, c = 63 \/ c = 35 \/ c = nl ->
                ~ In c (scheme ++ www ++ (u0 ++ [y]) ++ repeat 47 n)).
  { intros c Hc. rewrite !in_app_iff. intros [H|[H|[H|H]]].
    - exact (Hs' c Hc H).
    - exact (Hw' c Hc H).
    - apply in_app_iff in H.
      destruct Hc as [->|[->| ->]]; [exact (Hq H)|exact (Hf H)|exact (Hn H)].
    - apply (Hr c); [|exact H].
      destruct Hc as [->|[->| ->]]; discriminate. }
  replace (scheme ++ www ++ (u0 ++ [y]) ++ repeat 47 n ++ tail)
    with ((scheme ++ www ++ (u0 ++ [y]) ++ repeat 47 n) ++ tail)
    by (rewrite <- !app_assoc; reflexivity).
  rewrite (cut_query_and_fragment _ tail
             (HA 63 ltac:(auto)) (HA 35 ltac:(auto)) (HA nl ltac:(auto)) Ht).
  replace (scheme ++ www ++ (u0 ++ [y]) ++ repeat 47 n)
    with (((scheme ++ www ++ u0) ++ [y]) ++ repeat 47 n)
    by (rewrite <- !app_assoc; reflexivity).
  rewrite sub_trailing_slashes_app; [|exact Hy|].
  2: { rewrite <- !app_assoc, !in_app_iff. intros [H|[H|H]];
       [eapply Hs'; [|exact H]; auto | eapply Hw'; [|exact H]; auto|].
       apply Hn. apply in_app_iff. exact H. }
  rewrite <- !app_assoc.
  assert (Hsch : sub_scheme (scheme ++ www ++ u0 ++ [y]) = www ++ u0 ++ [y]).
  { destruct Hs as [<-|[<-|[<-|[]]]]; [|reflexivity|reflexivity].
    cbn [app]. unfold sub_scheme.
    destruct Hw as [<-|[<-|[]]]; cbn [app];
      [rewrite Hhs, Hh; reflexivity | reflexivity]. }
  rewrite Hsch.
  destruct Hw as [<-|[<-|[]]]; [|reflexivity].
  cbn [app]. unfold sub_www. rewrite Hwww. reflexivity.
Qed.

Ltac not_in_literal :=
  let H := fresh in
  intros H; cbv in H;
  repeat (destruct H as [H|H]; [discriminate H|]); exact H.

Lemma strip_url_normal_form_witness :
  strip_url (lit "https://www.example.com/a//?q=1#top") = lit "example.com/a".
Proof.
  apply (strip_url_normal_form (lit "https://") (lit "www.")
           (lit "example.com/a") 2 (lit "?q=1#top")).
  - right. right. left. reflexivity.
  - right. left. reflexivity.
  - unfold bare. repeat split; try not_in_literal; try reflexivity.
    exists (lit "example.com/"), 97. split; [reflexivity | discriminate].
  - right. exists 63, (lit "q=1#top").
    repeat split; [left; reflexivity | not_in_literal].
Defined.

End StripUrlFacts.

Section SearchResultsFacts.
Import WebSearcher.

Context {Website : Type} (url : Website -> pystr).

Local Abbreviation key := (fun r : Website => strip_url (url r)).

Lemma dict_mem_keys {V : Type} k (d : list (pystr * V)) :
  Registrar.dict_mem k d = bool_decide (k ∈ map fst d).
Proof.
  induction d as [|[k' v'] d IH]; cbn [Registrar.dict_mem existsb map fst].
  - symmetry. apply bool_decide_eq_false. apply not_elem_of_nil.
  - unfold Registrar.dict_mem in IH. rewrite IH. unfold pystr_eqb.
    destruct (decide (k = k')) as [->|Hne].
    + rewrite bool_decide_eq_true_2 by reflexivity. symmetry.
      apply bool_decide_eq_true. left.
    + rewrite (bool_decide_eq_false_2 _ Hne). cbn [orb].
      apply bool_decide_ext. rewrite elem_of_cons. tauto.
Qed.

Lemma firsts_ext seen1 seen2 results :
  (forall k, k ∈ seen1 <-> k ∈ seen2) ->
  firsts url seen1 results = firsts url seen2 results.
Proof.
  revert seen1 seen2.
  induction results as [|r results IH]; intros seen1 seen2 H;
    cbn [firsts]; [reflexivity|].
  rewrite (bool_decide_ext _ _ (H (key r))).
  destruct (bool_decide (key r ∈ seen2)); [apply IH; exact H|].
  f_equal. apply IH. intros k. rewrite !elem_of_cons, H. reflexivity.
Qed.

(** The [OrderedDict] after the loop holds the first results, in order. *)
Lemma fold_keep_first results d :
  map snd (fold_left (keep_first url) results d) =
  map snd d ++ firsts url (map fst d) results.
Proof.
  revert d. induction results as [|r results IH]; intros d;
    cbn [fold_left firsts].
  - rewrite app_nil_r. reflexivity.
  - rewrite IH. unfold keep_first. rewrite dict_mem_keys.
    destruct (bool_decide (key r ∈ map fst d)) eqn:E; [reflexivity|].
    assert (Hm : Registrar.dict_mem (key r) d = false)
      by (rewrite dict_mem_keys; exact E).
    rewrite (dict_set_fresh _ _ _ Hm), !map_app. cbn [map fst snd].
    rewrite <- app_assoc. cbn [app]. do 2 f_equal.
    apply firsts_ext. intros k.
    rewrite elem_of_app, !elem_of_cons, elem_of_nil. tauto.
Qed.

Lemma process_search_results_firsts results :
  process_search_results url results = firsts url [] (concat results).
Proof. unfold process_search_results. apply fold_keep_first. Qed.

Lemma firsts_fresh seen results r :
  r ∈ firsts url seen results -> key r ∉ seen.
Proof.
  revert seen. induction results as [|x results IH]; intros seen;
    cbn [firsts]; [intros H; inversion H|].
  destruct (bool_decide (key x ∈ seen)) eqn:E; [apply IH|].
  apply bool_decide_eq_false in E.
  rewrite elem_of_cons. intros [->|H]; [exact E|].
  apply IH in H. rewrite elem_of_cons in H. tauto.
Qed.

Lemma firsts_NoDup seen results :
  NoDup (map key (firsts url seen results)).
Proof.
  revert seen. induction results as [|x results IH]; intros seen;
    cbn [firsts]; [constructor|].
  destruct (bool_decide (key x ∈ seen)); [apply IH|].
  cbn [map]. constructor; [|apply IH].
  rewrite list_elem_of_fmap. intros (r & Hk & Hr).
  apply firsts_fresh in Hr. apply Hr. rewrite <- Hk. left.
Qed.

Lemma firsts_sublist seen results :
  sublist (firsts url seen results) results.
Proof.
  revert seen. induction results as [|x results IH]; intros seen;
    cbn [firsts]; [constructor|].
  destruct (bool_decide (key x ∈ seen)).
  - apply sublist_cons. apply IH.
  - apply sublist_skip. apply IH.
Qed.

Lemma firsts_keeps_first seen a r b :
  key r ∉ seen -> key r ∉ map key a ->
  r ∈ firsts url seen (a ++ r :: b).
Proof.
  revert seen. induction a as [|x a IH]; intros seen Hs Ha;
    cbn [app firsts].
  - rewrite (bool_decide_eq_false_2 _ Hs). left.
  - cbn [map] in Ha. rewrite not_elem_of_cons in Ha. destruct Ha as [Hx Ha].
    destruct (bool_decide (key x ∈ seen)); [apply IH; assumption|].
    right. apply IH; [|exact Ha].
    rewrite not_elem_of_cons. split; assumption.
Qed.

Lemma firsts_covers seen results r :
  r ∈ results ->
  key r ∈ seen \/ exists r', r' ∈ firsts url seen results /\ key r' = key r.
Proof.
  revert seen. induction results as [|x results IH]; intros seen H;
    [inversion H|].
  cbn [firsts]. apply elem_of_cons in H.
  destruct (bool_decide (key x ∈ seen)) eqn:E.
  - apply bool_decide_eq_true in E. destruct H as [->|H]; [left; exact E|].
    apply IH. exact H.
  - destruct H as [->|H].
    + right. exists x. split; [left | reflexivity].
    + destruct (IH (key x :: seen) H) as [Hk|(r' & Hr' & Hk)].
      * apply elem_of_cons in Hk as [Hk|Hk]; [|left; exact Hk].
        right. exists x. split; [left | symmetry; exact Hk].
      * right. exists r'. split; [right; exact Hr' | exact Hk].
Qed.

Lemma firsts_distinct seen results :
  NoDup (map key results) ->
  (forall r, r ∈ results -> key r ∉ seen) ->
  firsts url seen results = results.
Proof.
  revert seen. induction results as [|x results IH]; intros seen Hn Hs;
    cbn [firsts]; [reflexivity|].
  cbn [map] in Hn. apply NoDup_cons in Hn as [Hx Hn].
  rewrite bool_decide_eq_false_2 by (apply Hs; left).
  f_equal. apply IH; [exact Hn|].
  intros r Hr. rewrite not_elem_of_cons. split; [|apply Hs; right; exact Hr].
  intros Hk. apply Hx. rewrite <- Hk. apply list_elem_of_fmap.
  exists r. split; [reflexivity | exact Hr].
Qed.

(** X24.  No two of the results [process_search_results] returns have the
    same stripped URL. *)
Theorem search_results_are_distinct results :
  NoDup (map key (process_search_results url results)).
Proof. rewrite process_search_results_firsts. apply firsts_NoDup. Qed.

(** X25.  [process_search_results] only selects: what it returns are
    results of the flattened input, each at most as often as it occurs
    there, and in the order of the input. *)
Theorem search_results_are_selected results :
  sublist (process_search_results url results) (concat results).
Proof. rewrite process_search_results_firsts. apply firsts_sublist. Qed.

(** X26.  Of the results that share a stripped URL the first one of the
    flattened input is the one that is kept. *)
Theorem search_results_keep_first results a r b :
  concat results = a ++ r :: b ->
  key r ∉ map key a ->
  r ∈ process_search_results url results.
Proof.
  intros H Ha. rewrite process_search_results_firsts, H.
  apply firsts_keeps_first; [apply not_elem_of_nil | exact Ha].
Qed.

(** X27.  No site is lost: every result of the input has a result with
    the same stripped URL in the output. *)
Theorem search_results_cover_input results r :
  r ∈ concat results ->
  exists r', r' ∈ process_search_results url results /\ key r' = key r.
Proof.
  intros H. rewrite process_search_results_firsts.
  destruct (firsts_covers [] _ _ H) as [Hk|Hr]; [|exact Hr].
  inversion Hk.
Qed.

(** X28.  Processing is idempotent: results that were processed once come
    back unchanged from a second processing. *)
Theorem search_results_idempotent results :
  process_search_results url [process_search_results url results] =
  process_search_results url results.
Proof.
  rewrite (process_search_results_firsts [_]). cbn [concat].
  rewrite app_nil_r. apply firsts_distinct.
  - rewrite process_search_results_firsts. apply firsts_NoDup.
  - intros r _. apply not_elem_of_nil.
Qed.

End SearchResultsFacts.

Section SearchResultsExamples.
Import WebSearcher.

Lemma search_results_keep_first_witness :
  {| site_url := lit "https://a.org/"; site_title := lit "first" |}
  ∈ process_search_results site_url
      [[{| site_url := lit "b.org"; site_title := lit "b" |};
        {| site_url := lit "https://a.org/"; site_title := lit "first" |}];
       [{| site_url := lit "http://www.a.org"; site_title := lit "second" |}]].
Proof.
  apply (search_results_keep_first site_url _
           [{| site_url := lit "b.org"; site_title := lit "b" |}]
           {| site_url := lit "https://a.org/"; site_title := lit "first" |}
           [{| site_url := lit "http://www.a.org";
               site_title := lit "second" |}]).
  - reflexivity.
  - vm_compute. intros H. apply list_elem_of_singleton in H. discriminate H.
Defined.

Lemma search_results_cover_input_witness :
  exists r',
    r' ∈ process_search_results site_url
           [[{| site_url := lit "https://a.org/"; site_title := lit "first" |}];
            [{| site_url := lit "http://www.a.org";
                site_title := lit "second" |}]] /\
    strip_url (site_url r') =
    strip_url (site_url {| site_url := lit "http://www.a.org";
                           site_title := lit "second" |}).
Proof.
  apply (search_results_cover_input site_url
           [[{| site_url := lit "https://a.org/"; site_title := lit "first" |}];
            [{| site_url := lit "http://www.a.org";
                site_title := lit "second" |}]]).
  cbn [concat app]. right. left.
Defined.

End SearchResultsExamples.
